(** * Leader and first-available resolution of etcd clients

    Shallow embedding of [pkg/k3s/etcd_client_generator.go]: the
    [EtcdClientGenerator] with its lazily built proxy-pod map, the two
    resolution operations [forFirstAvailableNode] and [forLeader], and the
    helper [getLeaderClient].

    The collaborators the generator talks to (the Kubernetes clientset, the
    pod listing, the injected [createClient], the etcd client's [Members] and
    [Close]) are not part of the package.  They are modelled as an oracle
    [Env] whose answers may depend on everything that happened before, and
    every call to one of them is appended to a log, so that statements about
    which calls were made, in which order and how often, are statements about
    that log. *)

From Stdlib Require Import ZArith.
From stdpp Require Import base option strings gmap list.

(** ** Errors

    [github.com/pkg/errors] and [k8s.io/apimachinery/pkg/util/errors] as far
    as the generator uses them.  A Go [error] that may be [nil] is an
    [option error]. *)

#[warnings="-register-all"]
Inductive error : Type :=
| errEtcdNodeConnection
    (* var errEtcdNodeConnection = errors.New("failed to connect to etcd node") *)
| errors_New (msg : string)
| External (msg : string)
    (* an error value produced by a collaborator outside the package; the
       sentinel above is unexported, so no such value is or wraps it *)
| LeaderNodeMissing (id : Z) (nodeName : string)
    (* errors.Errorf("etcd leader is reported as %x with node name %q, but we
       couldn't find a corresponding Node in the cluster", id, nodeName) *)
| LeaderMemberMissing (id : Z)
    (* errors.Errorf("etcd leader is reported as %x, but we couldn't find any
       matching member", id) *)
| errors_Wrap (cause : error) (msg : string)
| Aggregate (errs : list error).

(** [errors.Wrap(err, msg)]: [nil] stays [nil]. *)
Definition Wrap (err : option error) (msg : string) : option error :=
  match err with
  | None => None
  | Some e => Some (errors_Wrap e msg)
  end.

(** [kerrors.NewAggregate(errlist)]: [nil] for the empty list.  The entries
    the generator passes are never [nil], so the filter of [nil] entries has
    nothing to drop. *)
Definition NewAggregate (errlist : list error) : option error :=
  match errlist with
  | [] => None
  | _ :: _ => Some (Aggregate errlist)
  end.

(** [errors.Is(err, errEtcdNodeConnection)].  The target is a package-level
    pointer, so only the very value [errEtcdNodeConnection] matches it;
    wrapped errors are unwrapped and an aggregate matches when one of its
    entries does. *)
Fixpoint errors_Is_errEtcdNodeConnection (err : error) : bool :=
  match err with
  | errEtcdNodeConnection => true
  | errors_Wrap cause _ => errors_Is_errEtcdNodeConnection cause
  | Aggregate errs => existsb errors_Is_errEtcdNodeConnection errs
  | _ => false
  end.

(** ** Data *)

Record Pod := { Pod_Name : string; Pod_NodeName : string }.

Record Member := { Member_ID : Z; Member_Name : string }.

(** An open [*etcd.Client].  [handle] is the identity of the connection: the
    position in the log of the call that opened it.  [LeaderID] is the field
    the client carries from its creation on. *)
Record Client := { handle : nat; Endpoint : string; LeaderID : Z }.

Inductive event : Type :=
| NewForConfigCall
| PodsListCall
| CreateClientCall (endpoint : string) (opened : option nat)
| MembersCall (h : nat)
| CloseCall (h : nat).

#[global] Instance event_eq_dec : EqDecision event.
Proof. solve_decision. Defined.

(** The collaborators.  Each answer is a function of the log so far; a
    failure carries the collaborator's message. *)
Record Env := {
  NewForConfig : list event -> option string;
  PodsList : list event -> string + list Pod;
  createClient : list event -> string -> string + Z;
  Members : list event -> Client -> string + list Member
}.

(** The generator's mutable field together with the log of calls. *)
Record World := {
  etcdPodMap : option (gmap string string);
  history : list event
}.

Definition GoResult (A : Type) : Type := (A * option error)%type.

(** ** State passing

    A computation transforms the world; [None] is a run-time panic (a [nil]
    dereference). *)

Definition M (A : Type) : Type := World -> option (A * World).

Definition ret {A} (a : A) : M A := fun w => Some (a, w).

Definition bind {A B} (m : M A) (k : A -> M B) : M B :=
  fun w => match m w with
           | Some (a, w') => k a w'
           | None => None
           end.

Definition panic {A} : M A := fun _ => None.

Notation "'let*' x ':=' m 'in' k" := (bind m (fun x => k))
  (at level 10, x strict pattern, m at level 100, k at level 200).

Definition log (e : event) : M unit :=
  fun w => Some (tt, {| etcdPodMap := etcdPodMap w; history := history w ++ [e] |}).

Definition get_etcdPodMap : M (option (gmap string string)) :=
  fun w => Some (etcdPodMap w, w).

Definition set_etcdPodMap (m : gmap string string) : M unit :=
  fun w => Some (tt, {| etcdPodMap := Some m; history := history w |}).

(** [etcdmap := make(map[string]string);
     for _, pod := range pods.Items { etcdmap[pod.Spec.NodeName] = pod.Name }] *)
Definition podmap (pods : list Pod) : gmap string string :=
  foldl (fun m pod => <[Pod_NodeName pod := Pod_Name pod]> m) ∅ pods.

(** [for _, member := range members { if member.ID == id { ...; break } }] *)
Definition leaderMember (members : list Member) (id : Z) : option Member :=
  List.find (fun member => Z.eqb (Member_ID member) id) members.

(** [nodes := sets.Set[string]{}; for _, n := range nodeNames { nodes.Insert(n) }] *)
Definition node_set (nodeNames : list string) : gset string :=
  foldl (fun nodes n => {[n]} ∪ nodes) ∅ nodeNames.

Section Generator.

(** [util.NodeNameFromMember], from [pkg/etcd/util]. *)
Variable NodeNameFromMember : Member -> string.

Variable env : Env.

(** *** Calls to the collaborators *)

Definition kubernetes_NewForConfig : M (option error) :=
  fun w => Some (External <$> NewForConfig env (history w),
                 {| etcdPodMap := etcdPodMap w;
                    history := history w ++ [NewForConfigCall] |}).

Definition Pods_List : M (error + list Pod) :=
  fun w => Some (match PodsList env (history w) with
                 | inl msg => inl (External msg)
                 | inr pods => inr pods
                 end,
                 {| etcdPodMap := etcdPodMap w;
                    history := history w ++ [PodsListCall] |}).

Definition c_createClient (endpoint : string) : M (GoResult (option Client)) :=
  fun w =>
    match createClient env (history w) endpoint with
    | inl msg =>
        Some ((None, Some (External msg)),
              {| etcdPodMap := etcdPodMap w;
                 history := history w ++ [CreateClientCall endpoint None] |})
    | inr leader =>
        let h := length (history w) in
        Some ((Some {| handle := h; Endpoint := endpoint; LeaderID := leader |}, None),
              {| etcdPodMap := etcdPodMap w;
                 history := history w ++ [CreateClientCall endpoint (Some h)] |})
    end.

Definition client_Members (client : Client) : M (error + list Member) :=
  fun w => Some (match Members env (history w) client with
                 | inl msg => inl (External msg)
                 | inr members => inr members
                 end,
                 {| etcdPodMap := etcdPodMap w;
                    history := history w ++ [MembersCall (handle client)] |}).

Definition client_Close (client : Client) : M unit :=
  log (CloseCall (handle client)).

(** *** [findEtcdProxyPod] *)

(** The body of [if c.etcdPodMap == nil { ... }]: [Some err] when it
    returns early, [None] when control falls through to the lookup. *)
Definition build_etcdPodMap : M (option error) :=
  let* cached := get_etcdPodMap in
  match cached with
  | Some _ => ret None
  | None =>
      let* err := kubernetes_NewForConfig in
      match err with
      | Some err => ret (Some (errors_Wrap err "unable to create client to target cluster"))
      | None =>
          let* listed := Pods_List in
          match listed with
          | inl err =>
              ret (Some (errors_Wrap err "unable to list etcd-proxy pods in target cluster"))
          | inr pods =>
              if Nat.eqb (length pods) 0
              then ret (Some (errors_New "there isn't any etcd-proxy pods in target cluster"))
              else let* _ := set_etcdPodMap (podmap pods) in ret None
          end
      end
  end.

Definition findEtcdProxyPod (nodeName : string) : M (GoResult string) :=
  let* early := build_etcdPodMap in
  match early with
  | Some err => ret ("", Some err)
  | None =>
      let* cached := get_etcdPodMap in
      match cached with
      | None => panic
      | Some m =>
          match m !! nodeName with
          | None =>
              ret ("", Some (errors_New ("unable to find etcd proxy pod for node " +:+ nodeName)))
          | Some podName => ret (podName, None)
          end
      end
  end.

(** *** [forFirstAvailableNode] *)

Fixpoint forFirstAvailableNode_loop (nodeNames : list string) (errs : list error)
  : M (GoResult (option Client)) :=
  match nodeNames with
  | [] =>
      ret (None, Wrap (NewAggregate errs) "could not establish a connection to any etcd node")
  | name :: rest =>
      let* (podName, err) := findEtcdProxyPod name in
      match err with
      | Some err => forFirstAvailableNode_loop rest (errs ++ [err])
      | None =>
          let* (client, err) := c_createClient podName in
          match err with
          | Some err => forFirstAvailableNode_loop rest (errs ++ [err])
          | None => ret (client, None)
          end
      end
  end.

Definition forFirstAvailableNode (nodeNames : list string) : M (GoResult (option Client)) :=
  if Nat.eqb (length nodeNames) 0
  then ret (None, Some (errors_New
              "invalid argument: forLeader can't be called with an empty list of nodes"))
  else
    let* err := kubernetes_NewForConfig in
    match err with
    | Some err => ret (None, Some (errors_Wrap err "unable to create client to target cluster"))
    | None =>
        let* listed := Pods_List in
        match listed with
        | inl err =>
            ret (None, Some (errors_Wrap err "unable to list etcd-proxy pods in target cluster"))
        | inr pods =>
            (* the map built here is a local that is never read *)
            let etcdmap := podmap pods in
            forFirstAvailableNode_loop nodeNames []
        end
    end.

(** *** [getLeaderClient] *)

(** The statements after [defer client.Close()]. *)
Definition getLeaderClient_body (client : Client) (allNodes : gset string)
  : M (GoResult (option Client)) :=
  let* queried := client_Members client in
  match queried with
  | inl err => ret (None, NewAggregate [err; errEtcdNodeConnection])
  | inr members =>
      match leaderMember members (LeaderID client) with
      | Some leader =>
          let nodeName := NodeNameFromMember leader in
          if decide (nodeName ∈ allNodes)
          then forFirstAvailableNode [nodeName]
          else ret (None, Some (LeaderNodeMissing (Member_ID leader) nodeName))
      | None => ret (None, Some (LeaderMemberMissing (LeaderID client)))
      end
  end.

(** [defer client.Close()] fixes its receiver when the [defer] statement
    runs, and the call happens once the result of the body is known. *)
Definition getLeaderClient (nodeName : string) (allNodes : gset string)
  : M (GoResult (option Client)) :=
  let* (client, err) := forFirstAvailableNode [nodeName] in
  match err with
  | Some err => ret (None, NewAggregate [err; errEtcdNodeConnection])
  | None =>
      match client with
      | None => panic
      | Some client =>
          let* result := getLeaderClient_body client allNodes in
          let* _ := client_Close client in
          ret result
      end
  end.

(** *** [forLeader] *)

Fixpoint forLeader_loop (nodes : gset string) (nodeNames : list string) (errs : list error)
  : M (GoResult (option Client)) :=
  match nodeNames with
  | [] =>
      ret (None, Wrap (NewAggregate errs) "could not establish a connection to the etcd leader")
  | nodeName :: rest =>
      let* (cl, err) := getLeaderClient nodeName nodes in
      match err with
      | Some err =>
          if errors_Is_errEtcdNodeConnection err
          then forLeader_loop nodes rest (errs ++ [err])
          else ret (None, Some err)
      | None => ret (cl, None)
      end
  end.

Definition forLeader (nodeNames : list string) : M (GoResult (option Client)) :=
  if Nat.eqb (length nodeNames) 0
  then ret (None, Some (errors_New
              "invalid argument: forLeader can't be called with an empty list of nodes"))
  else forLeader_loop (node_set nodeNames) nodeNames [].

End Generator.

(** ** Vocabulary for the statements

    Executable descriptions of runs, written with the functions above. *)

(** The world after further calls were logged. *)
Definition logged (w : World) (evs : list event) : World :=
  {| etcdPodMap := etcdPodMap w; history := history w ++ evs |}.

(** The world once the clientset construction and the listing at the head
    of [forFirstAvailableNode] have both been made. *)
Definition after_listing (w : World) : World :=
  logged w [NewForConfigCall; PodsListCall].

Section Runs.

Variable NodeNameFromMember : Member -> string.
Variable env : Env.

(** One turn of the loop of [forFirstAvailableNode] that ends in an error:
    the error that is appended and the world it leaves. *)
Definition attempt_fails (name : string) (w : World) : option (error * World) :=
  match findEtcdProxyPod env name w with
  | Some ((_, Some err), w1) => Some (err, w1)
  | Some ((podName, None), w1) =>
      match c_createClient env podName w1 with
      | Some ((_, Some err), w2) => Some (err, w2)
      | _ => None
      end
  | None => None
  end.

(** Every candidate of [names], tried in order from [w], ends in an error. *)
Fixpoint attempts_fail (names : list string) (w : World) : option (list error * World) :=
  match names with
  | [] => Some ([], w)
  | name :: rest =>
      match attempt_fails name w with
      | Some (err, w1) =>
          match attempts_fail rest w1 with
          | Some (errs, w2) => Some (err :: errs, w2)
          | None => None
          end
      | None => None
      end
  end.

(** One turn of the loop of [forLeader] that ends in an error which
    [errors.Is] recognises as [errEtcdNodeConnection]. *)
Definition probe_fails (nodes : gset string) (nodeName : string) (w : World)
  : option (error * World) :=
  match getLeaderClient NodeNameFromMember env nodeName nodes w with
  | Some ((_, Some err), w1) =>
      if errors_Is_errEtcdNodeConnection err then Some (err, w1) else None
  | _ => None
  end.

Fixpoint probes_fail (nodes : gset string) (nodeNames : list string) (w : World)
  : option (list error * World) :=
  match nodeNames with
  | [] => Some ([], w)
  | nodeName :: rest =>
      match probe_fails nodes nodeName w with
      | Some (err, w1) =>
          match probes_fail nodes rest w1 with
          | Some (errs, w2) => Some (err :: errs, w2)
          | None => None
          end
      | None => None
      end
  end.

End Runs.

(** How often an event occurs in a log. *)
Definition occurrences (e : event) (evs : list event) : nat :=
  length (filter (fun e' => e' = e) evs).

(** The connections a log opens and the connections it closes. *)
Definition opened (evs : list event) : list nat :=
  omap (fun e => match e with CreateClientCall _ o => o | _ => None end) evs.

Definition closed (evs : list event) : list nat :=
  omap (fun e => match e with CloseCall h => Some h | _ => None end) evs.

Definition is_dial (e : event) : bool :=
  match e with CreateClientCall _ _ => true | _ => false end.

Definition is_listing (e : event) : bool :=
  match e with PodsListCall => true | _ => false end.

Definition is_construction (e : event) : bool :=
  match e with NewForConfigCall => true | _ => false end.

(** The connection a result hands to the caller. *)
Definition returned (r : GoResult (option Client)) : list nat :=
  match r with
  | (Some cl, None) => [handle cl]
  | _ => []
  end.

(** Handles of connections opened in [evs], when [evs] is appended to a log
    of length [base], lie in the part of the log that [evs] fills. *)
Definition opened_within (base : nat) (evs : list event) : Prop :=
  forall h, h ∈ opened evs -> base <= h < base + length evs.

(** A log in which only connections that were opened before are closed. *)
Definition closes_known (evs : list event) : Prop :=
  forall h, CloseCall h ∈ evs -> h < length evs.

(** The error of [findEtcdProxyPod] for a node without a pod in the map. *)
Definition pod_not_found (nodeName : string) : error :=
  errors_New ("unable to find etcd proxy pod for node " +:+ nodeName).

(** The error of [findEtcdProxyPod] for an empty listing. *)
Definition no_proxy_pods : error :=
  errors_New "there isn't any etcd-proxy pods in target cluster".

(** What [getLeaderClient] makes of [forFirstAvailableNode] failing on an
    empty listing. *)
Definition unreachable_without_pods : error :=
  Aggregate [errors_Wrap (Aggregate [no_proxy_pods])
               "could not establish a connection to any etcd node";
             errEtcdNodeConnection].

(** [k] rounds of clientset construction and pod listing. *)
Definition listings (k : nat) : list event :=
  concat (replicate k [NewForConfigCall; PodsListCall]).

(** The error both operations return for the empty list. *)
Definition invalid_argument : error :=
  errors_New "invalid argument: forLeader can't be called with an empty list of nodes".

(** *** Runs, exits and monitors

    Further vocabulary, for the properties that follow the claims. *)

(** Calls that resolve a pod or dial it. *)
Definition is_resolver_call (e : event) : bool :=
  match e with
  | NewForConfigCall | PodsListCall | CreateClientCall _ _ => true
  | _ => false
  end.

(** A probe result that ends the loop of [forLeader]. *)
Definition conclusive (r : GoResult (option Client)) : Prop :=
  match r with
  | (_, Some err) => errors_Is_errEtcdNodeConnection err = false
  | (_, None) => True
  end.

(** What [forLeader] returns for a conclusive probe result. *)
Definition settle (r : GoResult (option Client)) : GoResult (option Client) :=
  match r with
  | (_, Some err) => (None, Some err)
  | (cl, None) => (cl, None)
  end.

(** The errors one turn of the loop of [forFirstAvailableNode] can record
    for a candidate of [names]. *)
Definition candidate_error (names : list string) (e : error) : Prop :=
  (exists msg, e = External msg) \/
  (exists n, n ∈ names /\ e = pod_not_found n) \/
  e = no_proxy_pods \/
  (exists msg, e = errors_Wrap (External msg) "unable to create client to target cluster") \/
  (exists msg, e = errors_Wrap (External msg) "unable to list etcd-proxy pods in target cluster").

(** The pod map of [w'] was built by the [findEtcdProxyPod] that was called
    in world [w0]: the map was unset there, the clientset was constructed,
    the listing that followed returned [pods], not empty, and the map of
    [w'] is the map of [pods]; the log of [w'] goes on from that listing. *)
Definition built_at (env : Env) (w0 : World) (pods : list Pod) (w' : World) : Prop :=
  etcdPodMap w0 = None /\
  NewForConfig env (history w0) = None /\
  PodsList env (history w0 ++ [NewForConfigCall]) = inr pods /\
  pods <> [] /\
  etcdPodMap w' = Some (podmap pods) /\
  exists evs, history w' = history w0 ++ [NewForConfigCall; PodsListCall] ++ evs.

(** The five ways out of [getLeaderClient], with the result and the world
    each one leaves. *)
Inductive probe_exit (NodeNameFromMember : Member -> string) (env : Env)
    (nodeName : string) (allNodes : gset string) (w : World)
  : GoResult (option Client) -> World -> Prop :=
| exit_unreachable err w1 :
    forFirstAvailableNode env [nodeName] w = Some ((None, Some err), w1) ->
    probe_exit NodeNameFromMember env nodeName allNodes w
      (None, Some (Aggregate [err; errEtcdNodeConnection])) w1
| exit_query_failed tmp w1 msg :
    forFirstAvailableNode env [nodeName] w = Some ((Some tmp, None), w1) ->
    Members env (history w1) tmp = inl msg ->
    probe_exit NodeNameFromMember env nodeName allNodes w
      (None, Some (Aggregate [External msg; errEtcdNodeConnection]))
      (logged w1 [MembersCall (handle tmp); CloseCall (handle tmp)])
| exit_leader_unknown tmp w1 members :
    forFirstAvailableNode env [nodeName] w = Some ((Some tmp, None), w1) ->
    Members env (history w1) tmp = inr members ->
    leaderMember members (LeaderID tmp) = None ->
    probe_exit NodeNameFromMember env nodeName allNodes w
      (None, Some (LeaderMemberMissing (LeaderID tmp)))
      (logged w1 [MembersCall (handle tmp); CloseCall (handle tmp)])
| exit_leader_elsewhere tmp w1 members leader :
    forFirstAvailableNode env [nodeName] w = Some ((Some tmp, None), w1) ->
    Members env (history w1) tmp = inr members ->
    leaderMember members (LeaderID tmp) = Some leader ->
    NodeNameFromMember leader ∉ allNodes ->
    probe_exit NodeNameFromMember env nodeName allNodes w
      (None, Some (LeaderNodeMissing (Member_ID leader) (NodeNameFromMember leader)))
      (logged w1 [MembersCall (handle tmp); CloseCall (handle tmp)])
| exit_redial tmp w1 members leader r w2 :
    forFirstAvailableNode env [nodeName] w = Some ((Some tmp, None), w1) ->
    Members env (history w1) tmp = inr members ->
    leaderMember members (LeaderID tmp) = Some leader ->
    NodeNameFromMember leader ∈ allNodes ->
    forFirstAvailableNode env [NodeNameFromMember leader]
      (logged w1 [MembersCall (handle tmp)]) = Some (r, w2) ->
    probe_exit NodeNameFromMember env nodeName allNodes w
      r (logged w2 [CloseCall (handle tmp)]).

(** A monitor of the use of connections: it runs over a log with the list
    of connections that are open, and fails on a dial that reports a handle
    already open, and on a [Members] or a [Close] on a connection that is
    not open. *)
Fixpoint monitor (evs : list event) (open : list nat) : option (list nat) :=
  match evs with
  | [] => Some open
  | CreateClientCall _ (Some h) :: evs =>
      if decide (h ∈ open) then None else monitor evs (open ++ [h])
  | MembersCall h :: evs =>
      if decide (h ∈ open) then monitor evs open else None
  | CloseCall h :: evs =>
      if decide (h ∈ open) then monitor evs (filter (fun h' => h' <> h) open) else None
  | _ :: evs => monitor evs open
  end.

(** ** Test doubles

    Concrete collaborators on which the statements are exercised.  Three
    nodes [A], [B], [C]; proxy pods run on [B] and [C] only. *)

Definition fresh : World := {| etcdPodMap := None; history := [] |}.

Definition pods_bc : list Pod :=
  [ {| Pod_Name := "pod-b"; Pod_NodeName := "B" |};
    {| Pod_Name := "pod-c"; Pod_NodeName := "C" |} ].

Definition members_ac : list Member :=
  [ {| Member_ID := 1; Member_Name := "A" |};
    {| Member_ID := 7; Member_Name := "C" |} ].

(** Both pods accept connections and report member 7 as leader; the member
    list can be read on [C] only. *)
Definition env_abc : Env := {|
  NewForConfig := fun _ => None;
  PodsList := fun _ => inr pods_bc;
  createClient := fun _ endpoint =>
    if decide (endpoint = "pod-b") then inr 7%Z
    else if decide (endpoint = "pod-c") then inr 7%Z
    else inl "no route to host";
  Members := fun _ client =>
    if decide (Endpoint client = "pod-c") then inr members_ac
    else inl "context deadline exceeded"
|}.

(** As [env_abc], but the reported leader id 9 is not in the member list. *)
Definition env_lost_leader : Env := {|
  NewForConfig := fun _ => None;
  PodsList := fun _ => inr pods_bc;
  createClient := fun _ _ => inr 9%Z;
  Members := fun _ _ => inr members_ac
|}.

(** No proxy pod anywhere. *)
Definition env_empty : Env := {|
  NewForConfig := fun _ => None;
  PodsList := fun _ => inr [];
  createClient := fun _ _ => inr 7%Z;
  Members := fun _ _ => inr members_ac
|}.

(** The first two listings come back empty, later ones show the pods. *)
Definition env_late : Env := {|
  NewForConfig := fun _ => None;
  PodsList := fun h =>
    if Nat.ltb (length (filter is_listing h)) 2 then inr [] else inr pods_bc;
  createClient := fun _ _ => inr 7%Z;
  Members := fun _ _ => inr members_ac
|}.

(** Only the first dial gets through. *)
Definition env_one_dial : Env := {|
  NewForConfig := fun _ => None;
  PodsList := fun _ => inr pods_bc;
  createClient := fun h _ =>
    if Nat.eqb (length (filter is_dial h)) 0 then inr 7%Z else inl "connection refused";
  Members := fun _ _ => inr members_ac
|}.

(** The clientset cannot be constructed. *)
Definition env_bad_config : Env := {|
  NewForConfig := fun _ => Some "invalid configuration";
  PodsList := fun _ => inr pods_bc;
  createClient := fun _ _ => inr 7%Z;
  Members := fun _ _ => inr members_ac
|}.

(** The listing fails. *)
Definition env_no_listing : Env := {|
  NewForConfig := fun _ => None;
  PodsList := fun _ => inl "forbidden";
  createClient := fun _ _ => inr 7%Z;
  Members := fun _ _ => inr members_ac
|}.

(** A generator that has built its map from [pods_bc]: the world a first
    [findEtcdProxyPod] against [env_abc] leaves. *)
Definition warm : World :=
  {| etcdPodMap := Some (podmap pods_bc);
     history := [NewForConfigCall; PodsListCall] |}.

(** ** Sample runs *)

Example warm_is_reached :
  findEtcdProxyPod env_abc "B" fresh = Some (("pod-b", None), warm).
Proof. vm_compute. reflexivity. Qed.

Example forFirstAvailableNode_abc :
  forFirstAvailableNode env_abc ["A"; "B"; "C"] fresh =
    Some ((Some {| handle := 4; Endpoint := "pod-b"; LeaderID := 7 |}, None),
          {| etcdPodMap := Some (podmap pods_bc);
             history := [NewForConfigCall; PodsListCall; NewForConfigCall; PodsListCall;
                         CreateClientCall "pod-b" (Some 4)] |}).
Proof. vm_compute. reflexivity. Qed.

Example forLeader_abc :
  forLeader Member_Name env_abc ["A"; "B"; "C"] fresh =
    Some ((Some {| handle := 15; Endpoint := "pod-c"; LeaderID := 7 |}, None),
          {| etcdPodMap := Some (podmap pods_bc);
             history := [NewForConfigCall; PodsListCall; NewForConfigCall; PodsListCall;
                         NewForConfigCall; PodsListCall; CreateClientCall "pod-b" (Some 6);
                         MembersCall 6; CloseCall 6;
                         NewForConfigCall; PodsListCall; CreateClientCall "pod-c" (Some 11);
                         MembersCall 11;
                         NewForConfigCall; PodsListCall; CreateClientCall "pod-c" (Some 15);
                         CloseCall 11] |}).
Proof. vm_compute. reflexivity. Qed.

Example forLeader_lost_leader :
  forLeader Member_Name env_lost_leader ["B"; "C"] fresh =
    Some ((None, Some (LeaderMemberMissing 9)),
          {| etcdPodMap := Some (podmap pods_bc);
             history := [NewForConfigCall; PodsListCall; NewForConfigCall; PodsListCall;
                         CreateClientCall "pod-b" (Some 4); MembersCall 4; CloseCall 4] |}).
Proof. vm_compute. reflexivity. Qed.

(** ** Logs and member lists *)

Lemma occurrences_app e evs1 evs2 :
  occurrences e (evs1 ++ evs2) = occurrences e evs1 + occurrences e evs2.
Proof. unfold occurrences. by rewrite filter_app, length_app. Qed.

Lemma occurrences_absent e evs : e ∉ evs -> occurrences e evs = 0.
Proof.
  unfold occurrences. induction evs as [|e' evs IH]; [done|].
  rewrite not_elem_of_cons. intros [Hne Hnin].
  rewrite filter_cons_False by done. by apply IH.
Qed.

Lemma occurrences_cons e e' evs :
  occurrences e (e' :: evs) = (if decide (e' = e) then 1 else 0) + occurrences e evs.
Proof.
  unfold occurrences. rewrite filter_cons. by destruct (decide (e' = e)).
Qed.

Lemma occurrences_query_close h :
  occurrences (CloseCall h) [MembersCall h; CloseCall h] = 1.
Proof.
  rewrite !occurrences_cons, decide_False, decide_True by done. reflexivity.
Qed.

Lemma closed_nil_absent evs h : closed evs = [] -> CloseCall h ∉ evs.
Proof.
  intros Hc Hin.
  assert (H : h ∈ closed evs).
  { unfold closed. apply list_elem_of_omap. exists (CloseCall h). done. }
  rewrite Hc in H. by apply elem_of_nil in H.
Qed.

Lemma closes_known_absent evs h : closes_known evs -> length evs <= h -> CloseCall h ∉ evs.
Proof. intros Hk Hle Hin. apply Hk in Hin. lia. Qed.

Lemma closes_known_app evs1 evs2 :
  (forall h, CloseCall h ∈ evs1 -> h < length evs1 + length evs2) ->
  (forall h, CloseCall h ∈ evs2 -> h < length evs1 + length evs2) ->
  closes_known (evs1 ++ evs2).
Proof.
  intros H1 H2 h Hin. rewrite length_app.
  apply elem_of_app in Hin as [Hin|Hin]; auto.
Qed.

Lemma leaderMember_None members id :
  Forall (fun member => Member_ID member <> id) members ->
  leaderMember members id = None.
Proof.
  unfold leaderMember. induction 1 as [|member members Hne _ IH]; simpl; [reflexivity|].
  destruct (Z.eqb_spec (Member_ID member) id); [done | exact IH].
Qed.

(** ** How the functions run *)

Section Proofs.
Variable NodeNameFromMember : Member -> string.
Variable env : Env.


Lemma bind_eq {A B} (m : M A) (k : A -> M B) w a w1 :
  m w = Some (a, w1) -> bind m k w = k a w1.
Proof. unfold bind. intros ->. reflexivity. Qed.

Lemma findEtcdProxyPod_cached m n w :
  etcdPodMap w = Some m ->
  findEtcdProxyPod env n w =
    Some (match m !! n with
          | Some podName => (podName, None)
          | None => ("", Some (pod_not_found n))
          end, w).
Proof.
  intros Hm. unfold findEtcdProxyPod, build_etcdPodMap, bind, get_etcdPodMap, ret.
  rewrite Hm. simpl. rewrite Hm. destruct (m !! n); reflexivity.
Qed.

Lemma findEtcdProxyPod_uncached n w :
  etcdPodMap w = None ->
  findEtcdProxyPod env n w =
    match NewForConfig env (history w) with
    | Some msg =>
        Some (("", Some (errors_Wrap (External msg) "unable to create client to target cluster")),
              logged w [NewForConfigCall])
    | None =>
        match PodsList env (history w ++ [NewForConfigCall]) with
        | inl msg =>
            Some (("", Some (errors_Wrap (External msg)
                               "unable to list etcd-proxy pods in target cluster")),
                  after_listing w)
        | inr pods =>
            if Nat.eqb (length pods) 0
            then Some (("", Some no_proxy_pods), after_listing w)
            else Some (match podmap pods !! n with
                       | Some podName => (podName, None)
                       | None => ("", Some (pod_not_found n))
                       end,
                       {| etcdPodMap := Some (podmap pods);
                          history := history w ++ [NewForConfigCall; PodsListCall] |})
        end
    end.
Proof.
  intros Hm. destruct w as [pm h]. simpl in Hm. subst pm.
  unfold findEtcdProxyPod, build_etcdPodMap, bind, get_etcdPodMap, ret,
    kubernetes_NewForConfig, Pods_List, set_etcdPodMap, after_listing, logged.
  simpl.
  destruct (NewForConfig env h) as [msg|]; simpl; [reflexivity|].
  destruct (PodsList env (h ++ [NewForConfigCall])) as [msg|pods]; simpl.
  - rewrite <- app_assoc. reflexivity.
  - destruct (Nat.eqb (length pods) 0); simpl; rewrite <- app_assoc; simpl.
    + reflexivity.
    + destruct (podmap pods !! n); reflexivity.
Qed.

Local Abbreviation Is := errors_Is_errEtcdNodeConnection.

Lemma opened_app evs1 evs2 : opened (evs1 ++ evs2) = opened evs1 ++ opened evs2.
Proof. apply omap_app. Qed.

Lemma closed_app evs1 evs2 : closed (evs1 ++ evs2) = closed evs1 ++ closed evs2.
Proof. apply omap_app. Qed.

(** What one call of [findEtcdProxyPod] does. *)
Lemma findEtcdProxyPod_spec n w :
  exists r w' evs,
    findEtcdProxyPod env n w = Some (r, w') /\
    history w' = history w ++ evs /\
    opened evs = [] /\ closed evs = [] /\
    (forall m, etcdPodMap w = Some m -> w' = w) /\
    match r with
    | (podName, None) => exists m, etcdPodMap w' = Some m /\ m !! n = Some podName
    | (_, Some e) => Is e = false
    end.
Proof.
  destruct (etcdPodMap w) as [m|] eqn:Hm.
  - rewrite (findEtcdProxyPod_cached m n w Hm).
    eexists _, w, []. split; [reflexivity|].
    rewrite app_nil_r. repeat split; try done.
    destruct (m !! n) eqn:Hn; [eauto | reflexivity].
  - rewrite (findEtcdProxyPod_uncached n w Hm).
    destruct (NewForConfig env (history w)) as [msg|].
    { eexists _, _, [NewForConfigCall]. repeat split; try done. }
    destruct (PodsList env (history w ++ [NewForConfigCall])) as [msg|pods].
    { eexists _, _, [NewForConfigCall; PodsListCall]. repeat split; try done. }
    destruct (Nat.eqb (length pods) 0).
    { eexists _, _, [NewForConfigCall; PodsListCall]. repeat split; try done. }
    eexists _, _, [NewForConfigCall; PodsListCall].
    split; [reflexivity|]. repeat split; try done.
    destruct (podmap pods !! n) eqn:Hn; [simpl; eauto | reflexivity].
Qed.

Lemma c_createClient_spec endpoint w :
  (exists msg,
      createClient env (history w) endpoint = inl msg /\
      c_createClient env endpoint w =
        Some ((None, Some (External msg)), logged w [CreateClientCall endpoint None])) \/
  (exists leader,
      createClient env (history w) endpoint = inr leader /\
      c_createClient env endpoint w =
        Some ((Some {| handle := length (history w); Endpoint := endpoint; LeaderID := leader |},
               None),
              logged w [CreateClientCall endpoint (Some (length (history w)))])).
Proof.
  unfold c_createClient, logged.
  destruct (createClient env (history w) endpoint) as [msg|leader]; [left|right]; eauto.
Qed.

Lemma Is_app errs errs' :
  Forall (fun e => Is e = false) errs -> Forall (fun e => Is e = false) errs' ->
  Forall (fun e => Is e = false) (errs ++ errs').
Proof. intros. apply Forall_app. done. Qed.

Lemma Is_Aggregate errs :
  Forall (fun e => Is e = false) errs -> Is (Aggregate errs) = false.
Proof.
  induction 1 as [|e errs He _ IH]; simpl; [reflexivity|].
  rewrite He. exact IH.
Qed.

(** What the loop of [forFirstAvailableNode] does. *)
Lemma forFirstAvailableNode_loop_spec names errs w :
  exists r w' evs,
    forFirstAvailableNode_loop env names errs w = Some (r, w') /\
    history w' = history w ++ evs /\
    closed evs = [] /\
    (forall m, etcdPodMap w = Some m -> etcdPodMap w' = Some m) /\
    match r with
    | (Some cl, None) =>
        exists evs0 name m,
          evs = evs0 ++ [CreateClientCall (Endpoint cl) (Some (handle cl))] /\
          opened evs0 = [] /\
          handle cl = length (history w ++ evs0) /\
          name ∈ names /\ etcdPodMap w' = Some m /\ m !! name = Some (Endpoint cl)
    | (None, Some e) =>
        opened evs = [] /\
        (Forall (fun e => Is e = false) errs -> Is e = false) /\
        exists es,
          e = errors_Wrap (Aggregate (errs ++ es))
                "could not establish a connection to any etcd node" /\
          length es = length names
    | (None, None) => names = [] /\ errs = [] /\ evs = []
    | (Some _, Some _) => False
    end.
Proof.
  revert errs w. induction names as [|name rest IH]; intros errs w.
  - simpl. unfold ret. eexists _, w, []. split; [reflexivity|].
    rewrite app_nil_r. repeat split; try done.
    destruct errs as [|e errs]; simpl; [done|].
    repeat split; try done.
    + intros H. apply (Is_Aggregate (e :: errs) H).
    + exists []. rewrite app_nil_r. done.
  - simpl.
    destruct (findEtcdProxyPod_spec name w) as (r1 & w1 & evs1 & E1 & H1 & O1 & C1 & K1 & R1).
    rewrite (bind_eq _ _ _ _ _ E1). destruct r1 as [podName [err|]].
    + (* no pod *)
      destruct (IH (errs ++ [err]) w1) as (r & w' & evs & E & H & C & K & R).
      exists r, w', (evs1 ++ evs). split; [exact E|].
      split; [rewrite H, H1, app_assoc; reflexivity|].
      split; [rewrite closed_app, C1, C; reflexivity|].
      split.
      { intros m Hm. apply K. rewrite (K1 m Hm). exact Hm. }
      destruct r as [[cl|] [e|]]; try done.
      * destruct R as (evs0 & nm & m & -> & O0 & Hh & Hin & Hm & Hl).
        exists (evs1 ++ evs0), nm, m. rewrite app_assoc.
        repeat split; try done.
        -- rewrite opened_app, O1, O0. done.
        -- rewrite Hh, H1, app_assoc. done.
        -- right. exact Hin.
      * destruct R as (O & HIs & es & -> & Hlen). repeat split.
        -- rewrite opened_app, O1, O. done.
        -- intros HF. apply HIs. apply Is_app; [done|]. repeat constructor. exact R1.
        -- exists (err :: es). rewrite <- app_assoc. simpl. split; [done|]. by rewrite Hlen.
      * destruct R as (? & Habs & _). by destruct errs.
    + (* pod found *)
      destruct R1 as (m1 & Hm1 & Hl1).
      destruct (c_createClient_spec podName w1) as [(msg & _ & E2)|(leader & _ & E2)];
        rewrite (bind_eq _ _ _ _ _ E2).
      * destruct (IH (errs ++ [External msg]) (logged w1 [CreateClientCall podName None]))
          as (r & w' & evs & E & H & C & K & R).
        exists r, w', (evs1 ++ CreateClientCall podName None :: evs). split; [exact E|].
        split; [rewrite H; simpl; rewrite H1, <- !app_assoc; reflexivity|].
        split; [rewrite closed_app, C1; simpl; exact C|].
        split.
        { intros m Hm. apply K. simpl. rewrite (K1 m Hm). exact Hm. }
        destruct r as [[cl|] [e|]]; try done.
        -- destruct R as (evs0 & nm & m & -> & O0 & Hh & Hin & Hm & Hl).
           exists (evs1 ++ CreateClientCall podName None :: evs0), nm, m.
           repeat split; try done.
           ++ rewrite <- app_assoc. reflexivity.
           ++ rewrite opened_app, O1. simpl. exact O0.
           ++ rewrite Hh. simpl. rewrite H1, <- !app_assoc. reflexivity.
           ++ right. exact Hin.
        -- destruct R as (O & HIs & es & -> & Hlen). repeat split.
           ++ rewrite opened_app, O1. simpl. exact O.
           ++ intros HF. apply HIs. apply Is_app; [done|]. repeat constructor.
           ++ exists (External msg :: es). rewrite <- app_assoc. simpl.
              split; [done|]. by rewrite Hlen.
        -- destruct R as (? & Habs & _). by destruct errs.
      * unfold ret. eexists _, _, (evs1 ++ [CreateClientCall podName (Some (length (history w1)))]).
        split; [reflexivity|].
        split; [simpl; rewrite H1, app_assoc; reflexivity|].
        split; [rewrite closed_app, C1; reflexivity|].
        split.
        { intros m Hm. simpl. rewrite (K1 m Hm). exact Hm. }
        exists evs1, name, m1. simpl. repeat split; try done.
        -- rewrite H1. reflexivity.
        -- left.
Qed.

Lemma forFirstAvailableNode_nonempty names w :
  names <> [] ->
  forFirstAvailableNode env names w =
    match NewForConfig env (history w) with
    | Some msg =>
        Some ((None, Some (errors_Wrap (External msg)
                             "unable to create client to target cluster")),
              logged w [NewForConfigCall])
    | None =>
        match PodsList env (history w ++ [NewForConfigCall]) with
        | inl msg =>
            Some ((None, Some (errors_Wrap (External msg)
                                 "unable to list etcd-proxy pods in target cluster")),
                  after_listing w)
        | inr _ => forFirstAvailableNode_loop env names [] (after_listing w)
        end
    end.
Proof.
  intros Hne. unfold forFirstAvailableNode.
  destruct names as [|name rest]; [done|].
  change (Nat.eqb (length (name :: rest)) 0) with false. cbv iota.
  unfold bind, ret, kubernetes_NewForConfig, Pods_List, after_listing, logged.
  destruct (NewForConfig env (history w)) as [msg|]; simpl; [reflexivity|].
  destruct (PodsList env (history w ++ [NewForConfigCall])) as [msg|pods]; simpl;
    rewrite <- app_assoc; reflexivity.
Qed.

(** What a call of [forFirstAvailableNode] on a non-empty list does. *)
Lemma forFirstAvailableNode_spec names w :
  names <> [] ->
  exists r w' evs,
    forFirstAvailableNode env names w = Some (r, w') /\
    history w' = history w ++ NewForConfigCall :: evs /\
    closed evs = [] /\
    (forall m, etcdPodMap w = Some m -> etcdPodMap w' = Some m) /\
    match r with
    | (Some cl, None) =>
        exists evs0 name m,
          evs = evs0 ++ [CreateClientCall (Endpoint cl) (Some (handle cl))] /\
          opened evs0 = [] /\
          handle cl = length (history w ++ NewForConfigCall :: evs0) /\
          name ∈ names /\ etcdPodMap w' = Some m /\ m !! name = Some (Endpoint cl)
    | (None, Some e) => opened evs = [] /\ Is e = false
    | _ => False
    end.
Proof.
  intros Hne. rewrite (forFirstAvailableNode_nonempty names w Hne).
  destruct (NewForConfig env (history w)) as [msg|].
  { eexists _, _, []. repeat split; try done. }
  destruct (PodsList env (history w ++ [NewForConfigCall])) as [msg|pods].
  { eexists _, _, [PodsListCall]. repeat split; try done. }
  destruct (forFirstAvailableNode_loop_spec names [] (after_listing w))
    as (r & w' & evs & E & H & C & K & R).
  exists r, w', (PodsListCall :: evs). split; [exact E|].
  split; [rewrite H; simpl; rewrite <- app_assoc; reflexivity|].
  split; [exact C|]. split; [exact K|].
  destruct r as [[cl|] [e|]]; try done.
  - destruct R as (evs0 & nm & m & -> & O0 & Hh & Hin & Hm & Hl).
    exists (PodsListCall :: evs0), nm, m. repeat split; try done.
    rewrite Hh. simpl. rewrite <- app_assoc. reflexivity.
  - destruct R as (O & HIs & _). split; [exact O|]. apply HIs. constructor.
  - destruct R as (-> & _). done.
Qed.

Lemma getLeaderClient_unfold nodeName allNodes w :
  getLeaderClient NodeNameFromMember env nodeName allNodes w =
    match forFirstAvailableNode env [nodeName] w with
    | Some ((_, Some err), w1) =>
        Some ((None, Some (Aggregate [err; errEtcdNodeConnection])), w1)
    | Some ((Some client, None), w1) =>
        let h := handle client in
        match Members env (history w1) client with
        | inl msg =>
            Some ((None, Some (Aggregate [External msg; errEtcdNodeConnection])),
                  logged w1 [MembersCall h; CloseCall h])
        | inr members =>
            match leaderMember members (LeaderID client) with
            | None =>
                Some ((None, Some (LeaderMemberMissing (LeaderID client))),
                      logged w1 [MembersCall h; CloseCall h])
            | Some leader =>
                if decide (NodeNameFromMember leader ∈ allNodes)
                then
                  match forFirstAvailableNode env [NodeNameFromMember leader]
                          (logged w1 [MembersCall h]) with
                  | Some (r, w2) => Some (r, logged w2 [CloseCall h])
                  | None => None
                  end
                else
                  Some ((None, Some (LeaderNodeMissing (Member_ID leader)
                                       (NodeNameFromMember leader))),
                        logged w1 [MembersCall h; CloseCall h])
            end
        end
    | Some ((None, None), _) => None
    | None => None
    end.
Proof.
  unfold getLeaderClient, bind at 1.
  destruct (forFirstAvailableNode env [nodeName] w) as [[[[client|] [err|]] w1]|];
    try reflexivity.
  unfold getLeaderClient_body, bind, ret, client_Members, client_Close, log, logged. simpl.
  destruct (Members env (history w1) client) as [msg|members]; simpl.
  { rewrite <- app_assoc. reflexivity. }
  destruct (leaderMember members (LeaderID client)) as [leader|]; simpl.
  2: { rewrite <- app_assoc. reflexivity. }
  destruct (decide (NodeNameFromMember leader ∈ allNodes)); simpl.
  2: { rewrite <- app_assoc. reflexivity. }
  destruct (forFirstAvailableNode env [NodeNameFromMember leader] _) as [[r w2]|];
    reflexivity.
Qed.

(** Candidates that fail are passed over by the loop of
    [forFirstAvailableNode], each leaving its error in [errs]. *)
Lemma forFirstAvailableNode_loop_skip pre rest errs w es w1 :
  attempts_fail env pre w = Some (es, w1) ->
  forFirstAvailableNode_loop env (pre ++ rest) errs w =
  forFirstAvailableNode_loop env rest (errs ++ es) w1.
Proof.
  revert errs w es. induction pre as [|name pre IH]; intros errs w es; simpl.
  - intros [= <- <-]. rewrite app_nil_r. reflexivity.
  - unfold attempt_fails, bind.
    destruct (findEtcdProxyPod env name w) as [[[podName [err|]] w2]|]; [| |done].
    + destruct (attempts_fail env pre w2) as [[es' w3]|] eqn:E; [|done].
      intros [= <- <-]. rewrite (IH _ _ _ E), <- app_assoc. reflexivity.
    + destruct (c_createClient env podName w2) as [[[cl [err|]] w3]|]; [|done|done].
      destruct (attempts_fail env pre w3) as [[es' w4]|] eqn:E; [|done].
      intros [= <- <-]. rewrite (IH _ _ _ E), <- app_assoc. reflexivity.
Qed.

Lemma attempts_fail_length names w es w1 :
  attempts_fail env names w = Some (es, w1) -> length es = length names.
Proof.
  revert w es. induction names as [|name names IH]; intros w es; simpl.
  - by intros [= <- <-].
  - destruct (attempt_fails env name w) as [[err w2]|]; [|done].
    destruct (attempts_fail env names w2) as [[es' w3]|] eqn:E; [|done].
    intros [= <- <-]. simpl. by rewrite (IH _ _ E).
Qed.

Lemma attempts_fail_app pre rest w es w1 es' w2 :
  attempts_fail env pre w = Some (es, w1) ->
  attempts_fail env rest w1 = Some (es', w2) ->
  attempts_fail env (pre ++ rest) w = Some (es ++ es', w2).
Proof.
  revert w es. induction pre as [|name pre IH]; intros w es; simpl.
  - intros [= <- <-] Hrest. exact Hrest.
  - destruct (attempt_fails env name w) as [[err w3]|]; [|done].
    destruct (attempts_fail env pre w3) as [[es0 w4]|] eqn:E; [|done].
    intros [= <- <-] Hrest. by rewrite (IH _ _ E Hrest).
Qed.

(** Candidates whose probe fails with the connection marker are passed
    over by the loop of [forLeader]. *)
Lemma forLeader_loop_skip nodes pre rest errs w es w1 :
  probes_fail NodeNameFromMember env nodes pre w = Some (es, w1) ->
  forLeader_loop NodeNameFromMember env nodes (pre ++ rest) errs w =
  forLeader_loop NodeNameFromMember env nodes rest (errs ++ es) w1.
Proof.
  revert errs w es. induction pre as [|name pre IH]; intros errs w es; simpl.
  - intros [= <- <-]. rewrite app_nil_r. reflexivity.
  - unfold probe_fails, bind.
    destruct (getLeaderClient NodeNameFromMember env name nodes w)
      as [[[cl [err|]] w2]|]; [|done|done].
    destruct (Is err); [|done].
    destruct (probes_fail NodeNameFromMember env nodes pre w2) as [[es' w3]|] eqn:E; [|done].
    intros [= <- <-]. rewrite (IH _ _ _ E), <- app_assoc. reflexivity.
Qed.

Lemma probes_fail_spec nodes names w es w1 :
  probes_fail NodeNameFromMember env nodes names w = Some (es, w1) ->
  length es = length names /\ Forall (fun e => Is e = true) es.
Proof.
  revert w es. induction names as [|name names IH]; intros w es; simpl.
  - intros [= <- <-]. done.
  - unfold probe_fails.
    destruct (getLeaderClient NodeNameFromMember env name nodes w)
      as [[[cl [err|]] w2]|]; [|done|done].
    destruct (Is err) eqn:HIs; [|done].
    destruct (probes_fail NodeNameFromMember env nodes names w2) as [[es' w3]|] eqn:E; [|done].
    intros [= <- <-]. destruct (IH _ _ E) as [Hl HF]. simpl. split; [by rewrite Hl|].
    by constructor.
Qed.

Lemma elem_of_node_set (n : string) (names : list string) :
  n ∈ node_set names <-> n ∈ names.
Proof.
  unfold node_set.
  assert (G : forall s : gset string, n ∈ foldl (fun nodes n => {[n]} ∪ nodes) s names <-> n ∈ s \/ n ∈ names).
  { induction names as [|x names IH]; intros s; simpl.
    - rewrite elem_of_nil. tauto.
    - rewrite IH, elem_of_union, elem_of_singleton, elem_of_cons. tauto. }
  rewrite G, elem_of_empty. tauto.
Qed.
Lemma forLeader_at pre name post w es w0 :
  probes_fail NodeNameFromMember env (node_set (pre ++ name :: post)) pre w = Some (es, w0) ->
  forLeader NodeNameFromMember env (pre ++ name :: post) w =
  forLeader_loop NodeNameFromMember env (node_set (pre ++ name :: post)) (name :: post) es w0.
Proof.
  intros Hpre. unfold forLeader.
  replace (Nat.eqb (length (pre ++ name :: post)) 0) with false
    by (by destruct pre).
  exact (forLeader_loop_skip _ _ _ [] _ _ _ Hpre).
Qed.

Lemma forFirstAvailableNode_lists names w :
  names <> [] ->
  NewForConfig env (history w) = None ->
  exists r w' evs,
    forFirstAvailableNode env names w = Some (r, w') /\
    history w' = history w ++ NewForConfigCall :: PodsListCall :: evs.
Proof.
  intros Hne Hcfg. rewrite (forFirstAvailableNode_nonempty names w Hne), Hcfg.
  destruct (PodsList env (history w ++ [NewForConfigCall])) as [msg|pods].
  { eexists _, _, []. split; reflexivity. }
  destruct (forFirstAvailableNode_loop_spec names [] (after_listing w))
    as (r & w' & evs & E & H & _).
  exists r, w', evs. split; [exact E|]. rewrite H. simpl. by rewrite <- app_assoc.
Qed.

(** What a call of [getLeaderClient] does. *)
Lemma getLeaderClient_spec nodeName allNodes w :
  exists r w' evs,
    getLeaderClient NodeNameFromMember env nodeName allNodes w = Some (r, w') /\
    history w' = history w ++ NewForConfigCall :: evs /\
    (NewForConfig env (history w) = None -> exists evs', evs = PodsListCall :: evs') /\
    (forall m, etcdPodMap w = Some m -> etcdPodMap w' = Some m) /\
    match r with
    | (Some _, None) | (None, Some _) => True
    | _ => False
    end.
Proof.
  rewrite getLeaderClient_unfold.
  destruct (forFirstAvailableNode_spec [nodeName] w)
    as (r1 & w1 & evs1 & E1 & H1 & _ & K1 & R1); [done|].
  assert (L1 : NewForConfig env (history w) = None -> exists evs', evs1 = PodsListCall :: evs').
  { intros Hcfg.
    destruct (forFirstAvailableNode_lists [nodeName] w) as (r & w' & evs & E & H); [done..|].
    rewrite E1 in E. injection E as <- <-. rewrite H1 in H.
    apply app_inv_head in H. injection H as ->. eauto. }
  rewrite E1. destruct r1 as [[tmp|] [err|]]; try done.
  2: { exists (None, Some (Aggregate [err; errEtcdNodeConnection])), w1, evs1. done. }
  clear R1. cbv zeta.
  assert (Hshort : forall e,
             exists r w' evs,
               Some ((None, Some e) : GoResult (option Client),
                     logged w1 [MembersCall (handle tmp); CloseCall (handle tmp)]) =
                 Some (r, w') /\
               history w' = history w ++ NewForConfigCall :: evs /\
               (NewForConfig env (history w) = None -> exists evs', evs = PodsListCall :: evs') /\
               (forall m, etcdPodMap w = Some m -> etcdPodMap w' = Some m) /\
               match r with
               | (Some _, None) | (None, Some _) => True
               | _ => False
               end).
  { intros e.
    eexists _, _, (evs1 ++ [MembersCall (handle tmp); CloseCall (handle tmp)]).
    split; [reflexivity|]. simpl. rewrite H1, <- app_assoc. repeat split; try done.
    intros Hcfg. destruct (L1 Hcfg) as [evs' ->]. eauto. }
  destruct (Members env (history w1) tmp) as [msg|members]; [apply Hshort|].
  destruct (leaderMember members (LeaderID tmp)) as [leader|]; [|apply Hshort].
  destruct (decide (NodeNameFromMember leader ∈ allNodes)) as [Hnode|_]; [|apply Hshort].
  clear Hshort.
  destruct (forFirstAvailableNode_spec [NodeNameFromMember leader]
              (logged w1 [MembersCall (handle tmp)]))
    as (r2 & w2 & evs2 & E2 & H2 & _ & K2 & R2); [done|].
  rewrite E2. simpl in H2.
  exists r2, (logged w2 [CloseCall (handle tmp)]),
    (evs1 ++ [MembersCall (handle tmp)] ++ (NewForConfigCall :: evs2) ++
       [CloseCall (handle tmp)]).
  split; [reflexivity|]. split; [|split; [|split]].
  - simpl. rewrite H2, H1, <- !app_assoc. reflexivity.
  - intros Hcfg. destruct (L1 Hcfg) as [evs' ->]. eauto.
  - intros m Hm. simpl. apply K2. simpl. by apply K1.
  - destruct r2 as [[cl|] [e|]]; done.
Qed.

(** What the loop of [forLeader] does. *)
Lemma forLeader_loop_spec nodes names errs w :
  exists r w' evs,
    forLeader_loop NodeNameFromMember env nodes names errs w = Some (r, w') /\
    history w' = history w ++ evs /\
    (forall m, etcdPodMap w = Some m -> etcdPodMap w' = Some m).
Proof.
  revert errs w. induction names as [|name rest IH]; intros errs w; simpl.
  - eexists _, w, []. rewrite app_nil_r. done.
  - destruct (getLeaderClient_spec name nodes w) as (r1 & w1 & evs1 & E1 & H1 & _ & K1 & R1).
    rewrite (bind_eq _ _ _ _ _ E1). destruct r1 as [[cl|] [err|]]; try done.
    + eexists _, w1, _. done.
    + destruct (Is err).
      * destruct (IH (errs ++ [err]) w1) as (r & w' & evs & E & H & K).
        exists r, w', (NewForConfigCall :: evs1 ++ evs). split; [exact E|]. split.
        -- rewrite H, H1, <- app_assoc. reflexivity.
        -- intros m Hm. by apply K, K1.
      * eexists _, w1, _. done.
Qed.

Lemma Is_marked err : Is (Aggregate [err; errEtcdNodeConnection]) = true.
Proof. simpl. by destruct (Is err). Qed.

(** When every candidate fails, the errors come back as one aggregate. *)
Lemma forFirstAvailableNode_exhausted names w es w1 :
  names <> [] ->
  NewForConfig env (history w) = None ->
  (exists pods, PodsList env (history w ++ [NewForConfigCall]) = inr pods) ->
  attempts_fail env names (after_listing w) = Some (es, w1) ->
  forFirstAvailableNode env names w =
    Some ((None, Some (errors_Wrap (Aggregate es)
                         "could not establish a connection to any etcd node")), w1).
Proof.
  intros Hne Hcfg [pods Hpods] Hall.
  assert (Hlen := attempts_fail_length _ _ _ _ Hall).
  rewrite forFirstAvailableNode_nonempty by exact Hne.
  rewrite Hcfg, Hpods.
  rewrite <- (app_nil_r names) at 1.
  rewrite (forFirstAvailableNode_loop_skip _ _ _ _ _ _ Hall). simpl.
  destruct es as [|e es]; [by destruct names|]. reflexivity.
Qed.

Lemma forLeader_exhausted names w es w1 :
  names <> [] ->
  probes_fail NodeNameFromMember env (node_set names) names w = Some (es, w1) ->
  forLeader NodeNameFromMember env names w =
    Some ((None, Some (errors_Wrap (Aggregate es)
                         "could not establish a connection to the etcd leader")), w1).
Proof.
  intros Hne Hall.
  destruct (probes_fail_spec _ _ _ _ _ Hall) as [Hlen _].
  unfold forLeader. destruct names as [|n names]; [done|].
  change (Nat.eqb (length (n :: names)) 0) with false. cbv iota.
  rewrite <- (app_nil_r (n :: names)) at 2.
  rewrite (forLeader_loop_skip _ _ _ _ _ _ _ Hall).
  destruct es as [|e es]; [done|]. reflexivity.
Qed.


(** [forFirstAvailableNode] on one candidate that has no pod in the map. *)
Lemma forFirstAvailableNode_single_miss n w m :
  NewForConfig env (history w) = None ->
  (exists pods, PodsList env (history w ++ [NewForConfigCall]) = inr pods) ->
  etcdPodMap w = Some m ->
  m !! n = None ->
  forFirstAvailableNode env [n] w =
    Some ((None, Some (errors_Wrap (Aggregate [pod_not_found n])
                         "could not establish a connection to any etcd node")),
          after_listing w).
Proof.
  intros Hcfg [pods Hpods] Hm Hn.
  rewrite forFirstAvailableNode_nonempty, Hcfg, Hpods by done. simpl.
  rewrite (bind_eq _ _ _ _ _ (findEtcdProxyPod_cached m n (after_listing w) Hm)), Hn.
  reflexivity.
Qed.


End Proofs.

(** ** A cluster without proxy pods *)

Section Empty.
Variable NodeNameFromMember : Member -> string.
Variable env : Env.
Hypothesis Hcfg : forall h, NewForConfig env h = None.
Hypothesis Hpods : forall h, PodsList env h = inr [].

Lemma listings_S k : listings (S k) = [NewForConfigCall; PodsListCall] ++ listings k.
Proof. reflexivity. Qed.

Lemma listings_add j k : listings (j + k) = listings j ++ listings k.
Proof.
  induction j as [|j IH]; [reflexivity|].
  change (S j + k) with (S (j + k)). rewrite !listings_S, IH, app_assoc. reflexivity.
Qed.

Lemma findEtcdProxyPod_empty n w :
  etcdPodMap w = None ->
  findEtcdProxyPod env n w = Some (("", Some no_proxy_pods), after_listing w).
Proof.
  intros Hm. rewrite findEtcdProxyPod_uncached by exact Hm. rewrite Hcfg, Hpods. reflexivity.
Qed.

Lemma attempts_fail_empty names w :
  etcdPodMap w = None ->
  attempts_fail env names w =
    Some (replicate (length names) no_proxy_pods, logged w (listings (length names))).
Proof.
  revert w. induction names as [|name names IH]; intros w Hm.
  - simpl. unfold logged, listings. simpl. rewrite app_nil_r. by destruct w.
  - cbn [attempts_fail]. unfold attempt_fails. rewrite findEtcdProxyPod_empty by exact Hm.
    rewrite IH by exact Hm.
    unfold after_listing, logged. cbn [length replicate history etcdPodMap].
    rewrite listings_S, <- app_assoc. reflexivity.
Qed.

Lemma forFirstAvailableNode_empty names w :
  names <> [] ->
  etcdPodMap w = None ->
  forFirstAvailableNode env names w =
    Some ((None, Some (errors_Wrap (Aggregate (replicate (length names) no_proxy_pods))
                         "could not establish a connection to any etcd node")),
          logged w (listings (S (length names)))).
Proof.
  intros Hne Hm. rewrite forFirstAvailableNode_nonempty, Hcfg, Hpods by exact Hne.
  rewrite <- (app_nil_r names) at 1.
  rewrite (forFirstAvailableNode_loop_skip env _ _ _ _ _ _
             (attempts_fail_empty names (after_listing w) Hm)).
  destruct names as [|name names]; [done|].
  unfold after_listing, logged. cbn [history etcdPodMap].
  rewrite listings_S, <- app_assoc. reflexivity.
Qed.

Lemma probes_fail_empty nodes names w :
  etcdPodMap w = None ->
  probes_fail NodeNameFromMember env nodes names w =
    Some (replicate (length names) unreachable_without_pods,
          logged w (listings (2 * length names))).
Proof.
  revert w. induction names as [|name names IH]; intros w Hm.
  - simpl. unfold logged, listings. simpl. rewrite app_nil_r. by destruct w.
  - cbn [probes_fail]. unfold probe_fails.
    rewrite getLeaderClient_unfold, forFirstAvailableNode_empty by done.
    cbn [length replicate]. fold unreachable_without_pods.
    rewrite (Is_marked _ : errors_Is_errEtcdNodeConnection unreachable_without_pods = true).
    rewrite IH by exact Hm.
    unfold logged. cbn [history etcdPodMap].
    replace (2 * S (length names)) with (2 + 2 * length names) by lia.
    rewrite listings_add, <- app_assoc. reflexivity.
Qed.

End Empty.

(** ** Counting calls *)

Lemma listings_only k :
  Forall (fun e => e = NewForConfigCall \/ e = PodsListCall) (listings k).
Proof.
  induction k as [|k IH]; [constructor|].
  rewrite listings_S. cbn [app].
  apply Forall_cons; split; [by left|]. apply Forall_cons; split; [by right | exact IH].
Qed.

Section Counting.
Variable NodeNameFromMember : Member -> string.
Variable env : Env.

(** Every candidate probed by [forLeader] costs at least one construction of
    a clientset, and one listing when constructions succeed. *)
Lemma probes_fail_listings nodes names w es w' :
  probes_fail NodeNameFromMember env nodes names w = Some (es, w') ->
  exists evs,
    history w' = history w ++ evs /\
    length names <= length (filter is_construction evs) /\
    ((forall h, NewForConfig env h = None) -> length names <= length (filter is_listing evs)).
Proof.
  revert w es. induction names as [|name names IH]; intros w es; cbn [probes_fail].
  - intros [= <- <-]. exists []. rewrite app_nil_r. repeat split; simpl; lia.
  - unfold probe_fails.
    destruct (getLeaderClient_spec NodeNameFromMember env name nodes w)
      as (r1 & w1 & evs1 & E1 & H1 & L1 & _).
    rewrite E1. destruct r1 as [cl [err|]]; [|done].
    destruct (errors_Is_errEtcdNodeConnection err); [|done].
    destruct (probes_fail NodeNameFromMember env nodes names w1) as [[es' w2]|] eqn:E; [|done].
    intros [= <- <-]. destruct (IH _ _ E) as (evs & H & Hc & Hl).
    exists ((NewForConfigCall :: evs1) ++ evs). split; [|split].
    + rewrite H, H1, <- app_assoc. reflexivity.
    + rewrite filter_app, length_app.
      rewrite filter_cons_True by done. simpl. lia.
    + intros Hcfg. destruct (L1 (Hcfg _)) as [evs' ->].
      rewrite filter_app, length_app.
      rewrite filter_cons_False by (intros []).
      rewrite filter_cons_True by done. simpl. specialize (Hl Hcfg). lia.
Qed.

End Counting.

(** ** Connections opened and closed *)

Ltac conjs := repeat match goal with |- _ /\ _ => split end.

Section Balance.
Variable NodeNameFromMember : Member -> string.
Variable env : Env.

Lemma forFirstAvailableNode_balance names w :
  names <> [] ->
  exists r w' evs,
    forFirstAvailableNode env names w = Some (r, w') /\
    history w' = history w ++ evs /\
    opened evs = returned r /\ closed evs = [] /\
    opened_within (length (history w)) evs /\
    match r with (Some _, None) | (None, Some _) => True | _ => False end.
Proof.
  intros Hne.
  destruct (forFirstAvailableNode_spec env names w Hne) as (r & w' & evs & E & H & C & _ & R).
  exists r, w', (NewForConfigCall :: evs). split; [exact E|]. split; [exact H|].
  destruct r as [[cl|] [e|]]; try done.
  - destruct R as (evs0 & _ & _ & -> & O & Hh & _).
    assert (Ho : opened (NewForConfigCall :: evs0 ++
                           [CreateClientCall (Endpoint cl) (Some (handle cl))]) = [handle cl]).
    { change (opened (NewForConfigCall :: ?l)) with (opened l).
      rewrite opened_app, O. reflexivity. }
    split; [exact Ho|]. split; [exact C|]. split; [|done].
    intros h. rewrite Ho, list_elem_of_singleton. intros ->.
    rewrite Hh, !length_app. simpl. rewrite length_app. simpl. lia.
  - destruct R as [O _].
    assert (Ho : opened (NewForConfigCall :: evs) = []) by exact O.
    split; [exact Ho|]. split; [exact C|]. split; [|done].
    intros h. rewrite Ho. by intros ?%elem_of_nil.
Qed.

Lemma opened_within_app base evs1 evs2 :
  opened_within base evs1 ->
  opened_within (base + length evs1) evs2 ->
  opened_within base (evs1 ++ evs2).
Proof.
  intros H1 H2 h. rewrite opened_app, elem_of_app, length_app.
  intros [Hin|Hin]; [apply H1 in Hin | apply H2 in Hin]; lia.
Qed.

Lemma opened_within_quiet base evs : opened evs = [] -> opened_within base evs.
Proof. intros Ho h. rewrite Ho. by intros ?%elem_of_nil. Qed.

Lemma NoDup_opened_app base evs1 evs2 :
  opened_within base evs1 ->
  opened_within (base + length evs1) evs2 ->
  NoDup (opened evs1) -> NoDup (opened evs2) ->
  NoDup (opened (evs1 ++ evs2)).
Proof.
  intros H1 H2 N1 N2. rewrite opened_app. apply NoDup_app. split; [exact N1|].
  split; [|exact N2]. intros h Hin1 Hin2. apply H1 in Hin1. apply H2 in Hin2. lia.
Qed.

Lemma NoDup_returned r : NoDup (returned r).
Proof.
  destruct r as [[cl|] [e|]]; simpl; try apply NoDup_nil_2. apply NoDup_singleton.
Qed.

(** Every connection [getLeaderClient] opens is closed, except the one it
    returns. *)
Lemma getLeaderClient_balance nodeName allNodes w :
  exists r w' evs,
    getLeaderClient NodeNameFromMember env nodeName allNodes w = Some (r, w') /\
    history w' = history w ++ evs /\
    opened evs = closed evs ++ returned r /\
    NoDup (opened evs) /\
    opened_within (length (history w)) evs /\
    match r with (Some _, None) | (None, Some _) => True | _ => False end.
Proof.
  rewrite getLeaderClient_unfold.
  destruct (forFirstAvailableNode_balance [nodeName] w)
    as (r1 & w1 & evs1 & E1 & H1 & O1 & C1 & B1 & R1); [done|].
  rewrite E1. destruct r1 as [[tmp|] [err|]]; try done.
  2: { eexists _, w1, evs1. split; [reflexivity|]. rewrite O1, C1.
       conjs; try done. apply NoDup_nil_2. }
  simpl in O1. cbv zeta.
  assert (Hshort : forall e,
             exists r w' evs,
               Some ((None, Some e) : GoResult (option Client),
                     logged w1 [MembersCall (handle tmp); CloseCall (handle tmp)]) =
                 Some (r, w') /\
               history w' = history w ++ evs /\
               opened evs = closed evs ++ returned r /\
               NoDup (opened evs) /\
               opened_within (length (history w)) evs /\
               match r with (Some _, None) | (None, Some _) => True | _ => False end).
  { intros e.
    eexists _, _, (evs1 ++ [MembersCall (handle tmp); CloseCall (handle tmp)]).
    split; [reflexivity|]. simpl. rewrite H1, <- app_assoc.
    rewrite opened_app, closed_app, O1, C1. simpl. conjs; try done.
    - apply NoDup_singleton.
    - apply opened_within_app; [exact B1 | by apply opened_within_quiet]. }
  destruct (Members env (history w1) tmp) as [msg|members]; [apply Hshort|].
  destruct (leaderMember members (LeaderID tmp)) as [leader|]; [|apply Hshort].
  destruct (decide (NodeNameFromMember leader ∈ allNodes)) as [Hnode|_]; [|apply Hshort].
  clear Hshort.
  destruct (forFirstAvailableNode_balance [NodeNameFromMember leader]
              (logged w1 [MembersCall (handle tmp)]))
    as (r2 & w2 & evs2 & E2 & H2 & O2 & C2 & B2 & R2); [done|].
  rewrite E2. simpl in H2, B2.
  exists r2, (logged w2 [CloseCall (handle tmp)]),
    ((evs1 ++ [MembersCall (handle tmp)]) ++ evs2 ++ [CloseCall (handle tmp)]).
  split; [reflexivity|].
  assert (Bmid : opened_within (length (history w)) (evs1 ++ [MembersCall (handle tmp)])).
  { apply opened_within_app; [exact B1 | by apply opened_within_quiet]. }
  assert (Bend : opened_within (length (history w) + length (evs1 ++ [MembersCall (handle tmp)]))
                   (evs2 ++ [CloseCall (handle tmp)])).
  { apply opened_within_app; [|by apply opened_within_quiet].
    rewrite H1, !length_app in B2. rewrite length_app, Nat.add_assoc. exact B2. }
  split; [|split; [|split; [|split]]].
  - simpl. rewrite H2, H1, <- !app_assoc. reflexivity.
  - rewrite !opened_app, !closed_app, O1, C1, O2, C2. simpl. by rewrite app_nil_r.
  - eapply NoDup_opened_app; [exact Bmid | exact Bend | |].
    + rewrite opened_app, O1. simpl. apply NoDup_singleton.
    + rewrite opened_app, O2. simpl. rewrite app_nil_r. apply NoDup_returned.
  - by apply opened_within_app.
  - exact R2.
Qed.

(** The same for the loop of [forLeader]. *)
Lemma forLeader_loop_balance nodes names errs w :
  exists r w' evs,
    forLeader_loop NodeNameFromMember env nodes names errs w = Some (r, w') /\
    history w' = history w ++ evs /\
    opened evs = closed evs ++ returned r /\
    NoDup (opened evs) /\
    opened_within (length (history w)) evs /\
    match r with
    | (Some _, None) | (None, Some _) => True
    | (None, None) => names = [] /\ errs = []
    | _ => False
    end.
Proof.
  revert errs w. induction names as [|name rest IH]; intros errs w; cbn [forLeader_loop].
  - eexists _, w, []. split; [reflexivity|]. rewrite app_nil_r.
    destruct errs; simpl; conjs; try done; try apply NoDup_nil_2;
      by apply opened_within_quiet.
  - destruct (getLeaderClient_balance name nodes w)
      as (r1 & w1 & evs1 & E1 & H1 & O1 & N1 & B1 & R1).
    rewrite (bind_eq _ _ _ _ _ E1). destruct r1 as [[cl|] [err|]]; try done.
    + eexists _, w1, evs1. conjs; done.
    + destruct (errors_Is_errEtcdNodeConnection err).
      * destruct (IH (errs ++ [err]) w1) as (r & w' & evs & E & H & O & N & B & R).
        rewrite H1, length_app in B.
        exists r, w', (evs1 ++ evs). split; [exact E|].
        split; [rewrite H, H1, <- app_assoc; reflexivity|].
        split; [|split; [|split]].
        -- rewrite opened_app, closed_app, O1, O. simpl. rewrite app_nil_r, app_assoc.
           reflexivity.
        -- by eapply NoDup_opened_app.
        -- by apply opened_within_app.
        -- destruct r as [[c|] [e|]]; try done. destruct R as [_ R]. by destruct errs.
      * eexists _, w1, evs1. conjs; done.
Qed.

End Balance.


(** X1: [forLeader] returns, and with a client or an error, never with neither;
    of the connections opened on the way, the one handed to the caller is
    left open and every other one is closed, each exactly once. *)
Theorem forLeader_connections_balanced NodeNameFromMember env names w :
  exists r w' evs,
    forLeader NodeNameFromMember env names w = Some (r, w') /\
    history w' = history w ++ evs /\
    opened evs = closed evs ++ returned r /\
    NoDup (opened evs) /\
    match r with (Some _, None) | (None, Some _) => True | _ => False end.
Proof.
  unfold forLeader. destruct names as [|name names].
  - eexists _, w, []. split; [reflexivity|]. rewrite app_nil_r.
    conjs; try done. apply NoDup_nil_2.
  - change (Nat.eqb (length (name :: names)) 0) with false. cbv iota.
    destruct (forLeader_loop_balance NodeNameFromMember env
                (node_set (name :: names)) (name :: names) [] w)
      as (r & w' & evs & E & H & O & N & _ & R).
    exists r, w', evs. conjs; try done.
    destruct r as [[c|] [e|]]; try done. by destruct R.
Qed.

(** ** The claims *)

(** C1: whenever [forLeader] has connected to a candidate (every candidate
    before it was passed over with the connection marker) and either the
    member list it reads holds no member whose id is the reported leader id,
    or the node name derived from the leader is not among the candidates,
    [forLeader] returns that inconsistency error at once: the log ends with
    the query and the close of this candidate, so no later candidate is
    tried, and the error is returned as it is, without the connection marker
    and outside any aggregate. *)
Theorem forLeader_inconsistency_is_fatal
    NodeNameFromMember env pre name post w es w0 tmp w1 members :
  probes_fail NodeNameFromMember env (node_set (pre ++ name :: post)) pre w = Some (es, w0) ->
  forFirstAvailableNode env [name] w0 = Some ((Some tmp, None), w1) ->
  Members env (history w1) tmp = inr members ->
  Forall (fun member => Member_ID member <> LeaderID tmp) members \/
  (exists leader,
      leaderMember members (LeaderID tmp) = Some leader /\
      NodeNameFromMember leader ∉ pre ++ name :: post) ->
  exists err,
    forLeader NodeNameFromMember env (pre ++ name :: post) w =
      Some ((None, Some err),
            logged w1 [MembersCall (handle tmp); CloseCall (handle tmp)]) /\
    errors_Is_errEtcdNodeConnection err = false /\
    (err = LeaderMemberMissing (LeaderID tmp) \/
     exists leader,
       leaderMember members (LeaderID tmp) = Some leader /\
       err = LeaderNodeMissing (Member_ID leader) (NodeNameFromMember leader)).
Proof.
  intros Hpre Htmp Hmembers Hbad.
  rewrite (forLeader_at _ _ _ _ _ _ _ _ Hpre). simpl.
  unfold bind. rewrite getLeaderClient_unfold, Htmp. cbv zeta. rewrite Hmembers.
  destruct Hbad as [Hnone|(leader & Hleader & Hnode)].
  - rewrite (leaderMember_None _ _ Hnone).
    exists (LeaderMemberMissing (LeaderID tmp)). repeat split. by left.
  - rewrite Hleader.
    destruct (decide (NodeNameFromMember leader ∈ node_set (pre ++ name :: post))) as [Hin|_].
    { apply elem_of_node_set in Hin. done. }
    exists (LeaderNodeMissing (Member_ID leader) (NodeNameFromMember leader)).
    repeat split. right. by exists leader.
Qed.

Lemma forLeader_inconsistency_is_fatal_witness :
  exists w',
    forLeader Member_Name env_lost_leader ["B"; "C"] fresh =
      Some ((None, Some (LeaderMemberMissing 9)), w') /\
    history w' = [NewForConfigCall; PodsListCall; NewForConfigCall; PodsListCall;
                  CreateClientCall "pod-b" (Some 4); MembersCall 4; CloseCall 4].
Proof.
  edestruct (forLeader_inconsistency_is_fatal Member_Name env_lost_leader [] "B" ["C"] fresh)
    as (err & H & _ & [->|(leader & Hl & _)]).
  - reflexivity.
  - vm_compute. reflexivity.
  - reflexivity.
  - left. repeat constructor; discriminate.
  - eexists. split; [exact H | reflexivity].
  - discriminate Hl.
Defined.



(** C3: for a candidate list [pre ++ name :: post], once the construction
    and the listing at the head of [forFirstAvailableNode] have succeeded, if
    the candidates of [pre], tried in order, all fail and [name] resolves to
    a pod to which a client can be created, the call returns that client;
    the world it leaves is the one right after that dial, whatever [post]
    is.  The failures [es] of [pre], one per candidate, are not returned: the
    loop holds them in [errs], after the errors it held before and in the
    order of the candidates, and they come back, in the aggregate, only from
    a call whose remaining candidates fail as well. *)
Theorem forFirstAvailableNode_first_success
    env pre name post w es w1 podName w2 cl w3 :
  NewForConfig env (history w) = None ->
  (exists pods, PodsList env (history w ++ [NewForConfigCall]) = inr pods) ->
  attempts_fail env pre (after_listing w) = Some (es, w1) ->
  findEtcdProxyPod env name w1 = Some ((podName, None), w2) ->
  c_createClient env podName w2 = Some ((Some cl, None), w3) ->
  forFirstAvailableNode env (pre ++ name :: post) w = Some ((Some cl, None), w3) /\
  Endpoint cl = podName /\
  history w3 = history w2 ++ [CreateClientCall podName (Some (handle cl))] /\
  length es = length pre /\
  (forall rest errs,
      forFirstAvailableNode_loop env (pre ++ rest) errs (after_listing w) =
      forFirstAvailableNode_loop env rest (errs ++ es) w1) /\
  (forall errs,
      forFirstAvailableNode_loop env pre errs (after_listing w) =
        Some ((None, Wrap (NewAggregate (errs ++ es))
                       "could not establish a connection to any etcd node"), w1)) /\
  (forall rest es' w',
      attempts_fail env rest w1 = Some (es', w') ->
      pre ++ rest <> [] ->
      forFirstAvailableNode env (pre ++ rest) w =
        Some ((None, Some (errors_Wrap (Aggregate (es ++ es'))
                             "could not establish a connection to any etcd node")), w')).
Proof.
  intros Hcfg [pods Hpods] Hpre Hpod Hdial.
  assert (Hskip := forFirstAvailableNode_loop_skip env pre).
  assert (Hc := c_createClient_spec env podName w2).
  conjs.
  - rewrite forFirstAvailableNode_nonempty by (by destruct pre).
    rewrite Hcfg, Hpods, (Hskip _ _ _ _ _ Hpre). simpl.
    rewrite (bind_eq _ _ _ _ _ Hpod), (bind_eq _ _ _ _ _ Hdial). reflexivity.
  - destruct Hc as [(msg & _ & E)|(leader & _ & E)];
      rewrite E in Hdial; [done|]. by injection Hdial as <- <-.
  - destruct Hc as [(msg & _ & E)|(leader & _ & E)];
      rewrite E in Hdial; [done|]. by injection Hdial as <- <-.
  - exact (attempts_fail_length env _ _ _ _ Hpre).
  - intros rest errs. exact (Hskip _ _ _ _ _ Hpre).
  - intros errs. rewrite <- (app_nil_r pre) at 1.
    rewrite (Hskip _ _ _ _ _ Hpre). reflexivity.
  - intros rest es' w' Hrest Hne.
    apply forFirstAvailableNode_exhausted; [exact Hne|exact Hcfg|by exists pods|].
    exact (attempts_fail_app env _ _ _ _ _ _ _ Hpre Hrest).
Qed.

Lemma forFirstAvailableNode_first_success_witness :
  exists w3,
    forFirstAvailableNode env_abc ["A"; "B"; "C"] fresh =
      Some ((Some {| handle := 4; Endpoint := "pod-b"; LeaderID := 7 |}, None), w3) /\
    history w3 = [NewForConfigCall; PodsListCall; NewForConfigCall; PodsListCall;
                  CreateClientCall "pod-b" (Some 4)].
Proof.
  edestruct (forFirstAvailableNode_first_success env_abc ["A"] "B" ["C"] fresh)
    as (H1 & _ & H2 & _).
  - reflexivity.
  - eexists. reflexivity.
  - vm_compute. reflexivity.
  - vm_compute. reflexivity.
  - vm_compute. reflexivity.
  - eexists. split; [exact H1 | exact H2].
Defined.

(** C4: once [getLeaderClient] has opened its temporary client, whichever
    way the call ends (query failure, missing leader member, leader node that
    is no candidate, failed or successful dial to the leader's node) the log
    closes that client exactly once, as its last entry; a client that is
    returned was opened by a later dial to the pod of the leader's node, is
    another connection than the temporary one, and is not closed. *)
Theorem temporary_handle_closed_once NodeNameFromMember env name allNodes w tmp w1 :
  closes_known (history w) ->
  forFirstAvailableNode env [name] w = Some ((Some tmp, None), w1) ->
  exists r w' evs,
    getLeaderClient NodeNameFromMember env name allNodes w = Some (r, w') /\
    history w' = history w1 ++ [MembersCall (handle tmp)] ++ evs ++ [CloseCall (handle tmp)] /\
    closed evs = [] /\
    occurrences (CloseCall (handle tmp)) (history w') = 1 /\
    closes_known (history w') /\
    match r with
    | (Some cl, None) =>
        handle tmp < handle cl /\
        (CloseCall (handle cl) ∉ history w') /\
        (exists evs0,
            evs = evs0 ++ [CreateClientCall (Endpoint cl) (Some (handle cl))] /\
            opened evs0 = []) /\
        exists members leader m,
          Members env (history w1) tmp = inr members /\
          leaderMember members (LeaderID tmp) = Some leader /\
          etcdPodMap w' = Some m /\
          m !! NodeNameFromMember leader = Some (Endpoint cl)
    | (None, Some _) => opened evs = []
    | _ => False
    end.
Proof.
  intros Hknown Htmp.
  destruct (forFirstAvailableNode_spec env [name] w) as (r1 & w1' & evs1 & E1 & H1 & C1 & _ & R1);
    [done|].
  rewrite Htmp in E1. injection E1 as <- <-.
  destruct R1 as (evs0 & _ & _ & -> & _ & Hh & _).
  assert (Hlt : handle tmp < length (history w1)).
  { rewrite H1, Hh, !length_app. simpl. rewrite length_app. simpl. lia. }
  assert (Hge : length (history w) <= handle tmp).
  { rewrite Hh, length_app. lia. }
  assert (Hfresh : CloseCall (handle tmp) ∉ history w1).
  { rewrite H1. rewrite not_elem_of_app, not_elem_of_cons. repeat split.
    - by apply closes_known_absent.
    - done.
    - by apply closed_nil_absent. }
  assert (Hknown1 : forall h, CloseCall h ∈ history w1 -> h < length (history w)).
  { intros h. rewrite H1, elem_of_app, elem_of_cons. intros [Hin|[Hin|Hin]].
    - by apply Hknown.
    - done.
    - by apply closed_nil_absent in Hin. }
  assert (Hle1 : length (history w) <= length (history w1)).
  { rewrite H1, length_app. lia. }
  (* The three ways out that open no further connection. *)
  assert (Hshort : forall e,
             exists r w' evs,
               Some ((None, Some e) : GoResult (option Client),
                     logged w1 [MembersCall (handle tmp); CloseCall (handle tmp)]) =
                 Some (r, w') /\
               history w' =
                 history w1 ++ [MembersCall (handle tmp)] ++ evs ++ [CloseCall (handle tmp)] /\
               closed evs = [] /\
               occurrences (CloseCall (handle tmp)) (history w') = 1 /\
               closes_known (history w') /\
               match r with
               | (Some cl, None) =>
                   handle tmp < handle cl /\
                   (CloseCall (handle cl) ∉ history w') /\
                   (exists evs0,
                       evs = evs0 ++ [CreateClientCall (Endpoint cl) (Some (handle cl))] /\
                       opened evs0 = []) /\
                   exists members leader m,
                     Members env (history w1) tmp = inr members /\
                     leaderMember members (LeaderID tmp) = Some leader /\
                     etcdPodMap w' = Some m /\
                     m !! NodeNameFromMember leader = Some (Endpoint cl)
               | (None, Some _) => opened evs = []
               | _ => False
               end).
  { intros e. eexists _, _, []. split; [reflexivity|]. simpl. repeat split.
    - rewrite occurrences_app, (occurrences_absent _ _ Hfresh), occurrences_query_close.
      reflexivity.
    - apply closes_known_app; intros h Hin.
      + apply Hknown1 in Hin. lia.
      + simpl. rewrite !elem_of_cons, elem_of_nil in Hin.
        destruct Hin as [Hin|[Hin|[]]]; [done|]. injection Hin as ->. lia. }
  rewrite getLeaderClient_unfold, Htmp. cbv zeta.
  destruct (Members env (history w1) tmp) as [msg|members] eqn:Hmem; [apply Hshort|].
  destruct (leaderMember members (LeaderID tmp)) as [leader|] eqn:Hleader; [|apply Hshort].
  destruct (decide (NodeNameFromMember leader ∈ allNodes)) as [Hnode|_]; [|apply Hshort].
  clear Hshort.
  destruct (forFirstAvailableNode_spec env [NodeNameFromMember leader]
              (logged w1 [MembersCall (handle tmp)]))
    as (r2 & w2 & evs2 & E2 & H2 & C2 & _ & R2); [done|].
  rewrite E2. simpl in H2.
  exists r2, (logged w2 [CloseCall (handle tmp)]), (NewForConfigCall :: evs2).
  split; [reflexivity|].
  assert (Hhist : history (logged w2 [CloseCall (handle tmp)]) =
                  history w1 ++
                    [MembersCall (handle tmp)] ++ (NewForConfigCall :: evs2) ++
                    [CloseCall (handle tmp)]).
  { simpl. rewrite H2, <- !app_assoc. reflexivity. }
  split; [exact Hhist|]. split; [exact C2|].
  assert (Hmid : forall h, CloseCall h ∈ NewForConfigCall :: evs2 -> False).
  { intros h. rewrite elem_of_cons. intros [Hin|Hin]; [done|].
    by apply closed_nil_absent in Hin. }
  split; [|split].
  - rewrite Hhist, !occurrences_app, (occurrences_absent _ _ Hfresh).
    rewrite (occurrences_absent _ (NewForConfigCall :: evs2)) by (intros Hin; eapply Hmid, Hin).
    rewrite !occurrences_cons, decide_False, decide_True by done. reflexivity.
  - rewrite Hhist. apply closes_known_app; intros h Hin.
    + apply Hknown1 in Hin. lia.
    + rewrite !length_app. simpl.
      rewrite elem_of_app, elem_of_app, !list_elem_of_singleton in Hin.
      destruct Hin as [Hin|[Hin|Hin]].
      * done.
      * destruct (Hmid _ Hin).
      * injection Hin as ->. lia.
  - destruct r2 as [[cl|] [err|]]; try done; [|by destruct R2].
    destruct R2 as (evs0' & nm & m & -> & O0 & Hh2 & Hnm & Hm & Hl).
    apply list_elem_of_singleton in Hnm. subst nm.
    assert (Hcl : length (history w1) < handle cl).
    { rewrite Hh2. simpl. rewrite !length_app. simpl. lia. }
    split; [lia|]. split; [|split].
    + rewrite Hhist. rewrite elem_of_app, elem_of_app, elem_of_app, !list_elem_of_singleton.
      intros [Hin|[Hin|[Hin|Hin]]].
      * apply Hknown1 in Hin. lia.
      * done.
      * destruct (Hmid _ Hin).
      * injection Hin as Heq. lia.
    + exists (NewForConfigCall :: evs0'). split; [reflexivity | exact O0].
    + exists members, leader, m. done.
Qed.

Lemma temporary_handle_closed_once_witness :
  exists cl w',
    getLeaderClient Member_Name env_abc "C" (node_set ["A"; "B"; "C"]) fresh =
      Some ((Some cl, None), w') /\
    occurrences (CloseCall 4) (history w') = 1 /\
    CloseCall (handle cl) ∉ history w'.
Proof.
  edestruct (temporary_handle_closed_once Member_Name env_abc "C" (node_set ["A"; "B"; "C"]) fresh)
    as (r & w' & evs & E & _ & _ & Hocc & _ & R).
  - intros h Hin. by apply elem_of_nil in Hin.
  - vm_compute. reflexivity.
  - destruct r as [[cl|] [e|]]; try done.
    exists cl, w'. split; [exact E|]. split; [exact Hocc | apply R].
Defined.

(** C5, as amended: on a generator without a pod map, when every listing
    comes back empty, [findEtcdProxyPod] fails with the inventory error after
    one construction and one listing; [forFirstAvailableNode] records that
    error for the candidate and goes on, listing again for each further
    candidate, and ends with the aggregate of one inventory error per
    candidate; [forLeader] passes over every candidate likewise.  The log
    holds constructions and listings only: no client is ever created. *)
Theorem empty_inventory_fails_every_candidate NodeNameFromMember env w :
  (forall h, NewForConfig env h = None) ->
  (forall h, PodsList env h = inr []) ->
  etcdPodMap w = None ->
  (forall n, findEtcdProxyPod env n w = Some (("", Some no_proxy_pods), after_listing w)) /\
  (forall names,
      names <> [] ->
      forFirstAvailableNode env names w =
        Some ((None, Some (errors_Wrap (Aggregate (replicate (length names) no_proxy_pods))
                             "could not establish a connection to any etcd node")),
              logged w (listings (S (length names))))) /\
  (forall names,
      names <> [] ->
      forLeader NodeNameFromMember env names w =
        Some ((None, Some (errors_Wrap
                             (Aggregate (replicate (length names) unreachable_without_pods))
                             "could not establish a connection to the etcd leader")),
              logged w (listings (2 * length names)))) /\
  (forall k, Forall (fun e => e = NewForConfigCall \/ e = PodsListCall) (listings k)).
Proof.
  intros Hcfg Hpods Hm. split; [|split; [|split]].
  - intros n. by apply findEtcdProxyPod_empty.
  - intros names Hne. by apply forFirstAvailableNode_empty.
  - intros names Hne. apply forLeader_exhausted; [exact Hne|].
    by apply probes_fail_empty.
  - apply listings_only.
Qed.

Lemma empty_inventory_fails_every_candidate_witness :
  forFirstAvailableNode env_empty ["A"; "B"] fresh =
    Some ((None, Some (errors_Wrap (Aggregate [no_proxy_pods; no_proxy_pods])
                         "could not establish a connection to any etcd node")),
          {| etcdPodMap := None;
             history := [NewForConfigCall; PodsListCall; NewForConfigCall; PodsListCall;
                         NewForConfigCall; PodsListCall] |}).
Proof.
  destruct (empty_inventory_fails_every_candidate Member_Name env_empty fresh)
    as (_ & H & _); [reflexivity..|].
  apply (H ["A"; "B"]). discriminate.
Defined.

(** C5, counterexample: the first listings of [env_late] are empty and
    [findEtcdProxyPod] reports the inventory error for [A]; the call is not
    over: the next candidate lists again, finds the pods and a client is
    returned. *)
Lemma empty_inventory_counterexample :
  PodsList env_late [NewForConfigCall] = inr [] /\
  findEtcdProxyPod env_late "A" (after_listing fresh) =
    Some (("", Some no_proxy_pods), after_listing (after_listing fresh)) /\
  forFirstAvailableNode env_late ["A"; "B"] fresh =
    Some ((Some {| handle := 6; Endpoint := "pod-b"; LeaderID := 7 |}, None),
          {| etcdPodMap := Some (podmap pods_bc);
             history := [NewForConfigCall; PodsListCall; NewForConfigCall; PodsListCall;
                         NewForConfigCall; PodsListCall;
                         CreateClientCall "pod-b" (Some 6)] |}).
Proof. repeat split; vm_compute; reflexivity. Qed.

(** C6: on the empty list both [forFirstAvailableNode] and [forLeader]
    return the invalid-argument error and leave the world, hence the log of
    calls to the collaborators, untouched. *)
Theorem empty_list_is_invalid_argument NodeNameFromMember env w :
  forFirstAvailableNode env [] w = Some ((None, Some invalid_argument), w) /\
  forLeader NodeNameFromMember env [] w = Some ((None, Some invalid_argument), w).
Proof. split; reflexivity. Qed.

(** C7, as amended: when every candidate of a non-empty list fails,
    [forFirstAvailableNode] returns the aggregate of all recorded errors, in
    order, wrapped with the message "could not establish a connection to any
    etcd node"; when every probe of [forLeader] fails with the connection
    marker it returns the aggregate of all of them wrapped with "could not
    establish a connection to the etcd leader".  One error per candidate. *)
Theorem exhausted_candidates_aggregate :
  (forall env names w es w1,
      names <> [] ->
      NewForConfig env (history w) = None ->
      (exists pods, PodsList env (history w ++ [NewForConfigCall]) = inr pods) ->
      attempts_fail env names (after_listing w) = Some (es, w1) ->
      forFirstAvailableNode env names w =
        Some ((None, Some (errors_Wrap (Aggregate es)
                             "could not establish a connection to any etcd node")), w1) /\
      length es = length names) /\
  (forall NodeNameFromMember env names w es w1,
      names <> [] ->
      probes_fail NodeNameFromMember env (node_set names) names w = Some (es, w1) ->
      forLeader NodeNameFromMember env names w =
        Some ((None, Some (errors_Wrap (Aggregate es)
                             "could not establish a connection to the etcd leader")), w1) /\
      length es = length names /\
      Forall (fun e => errors_Is_errEtcdNodeConnection e = true) es).
Proof.
  split.
  - intros env names w es w1 Hne Hcfg Hpods Hall. split.
    + by apply forFirstAvailableNode_exhausted.
    + exact (attempts_fail_length env _ _ _ _ Hall).
  - intros NodeNameFromMember env names w es w1 Hne Hall. split.
    + by apply forLeader_exhausted.
    + exact (probes_fail_spec NodeNameFromMember env _ _ _ _ _ Hall).
Qed.

Lemma exhausted_candidates_aggregate_witness :
  (exists w1,
      forFirstAvailableNode env_abc ["A"] fresh =
        Some ((None, Some (errors_Wrap (Aggregate [pod_not_found "A"])
                             "could not establish a connection to any etcd node")), w1)) /\
  (exists e1 e2 w1,
      forLeader Member_Name env_abc ["A"; "B"] fresh =
        Some ((None, Some (errors_Wrap (Aggregate [e1; e2])
                             "could not establish a connection to the etcd leader")), w1)).
Proof.
  destruct exhausted_candidates_aggregate as [first leader]. split.
  - edestruct (first env_abc ["A"] fresh) as [H _].
    + done.
    + reflexivity.
    + eexists. reflexivity.
    + vm_compute. reflexivity.
    + eexists. exact H.
  - edestruct (leader Member_Name env_abc ["A"; "B"] fresh) as [H _].
    + done.
    + vm_compute. reflexivity.
    + eexists _, _, _. exact H.
Defined.

(** C7, counterexample: with the single candidate [A], which has no pod,
    every candidate fails, and the error returned does not carry the message
    "could not establish a connection to any node", with or without the
    full stop. *)
Lemma aggregate_label_counterexample :
  (exists es w1, attempts_fail env_abc ["A"] (after_listing fresh) = Some (es, w1)) /\
  (forall es w1,
      forFirstAvailableNode env_abc ["A"] fresh <>
        Some ((None, Some (errors_Wrap (Aggregate es)
                             "could not establish a connection to any node.")), w1)) /\
  (forall es w1,
      forFirstAvailableNode env_abc ["A"] fresh <>
        Some ((None, Some (errors_Wrap (Aggregate es)
                             "could not establish a connection to any node")), w1)).
Proof.
  assert (E : exists w1,
             forFirstAvailableNode env_abc ["A"] fresh =
               Some ((None, Some (errors_Wrap (Aggregate [pod_not_found "A"])
                                    "could not establish a connection to any etcd node")), w1)).
  { eexists. vm_compute. reflexivity. }
  destruct E as [w1 E]. split; [|split].
  - eexists _, _. vm_compute. reflexivity.
  - intros es w2. rewrite E. discriminate.
  - intros es w2. rewrite E. discriminate.
Qed.



(** C9: when the leader is found and its node is a candidate, an error of
    the dial to the leader's node is returned by [getLeaderClient] as it is;
    it does not carry the connection marker, so [forLeader] returns it and
    tries no further candidate. *)
Theorem leader_dial_failure_is_fatal
    NodeNameFromMember env pre name post w es w0 tmp w1 members leader client err w2 :
  probes_fail NodeNameFromMember env (node_set (pre ++ name :: post)) pre w = Some (es, w0) ->
  forFirstAvailableNode env [name] w0 = Some ((Some tmp, None), w1) ->
  Members env (history w1) tmp = inr members ->
  leaderMember members (LeaderID tmp) = Some leader ->
  NodeNameFromMember leader ∈ pre ++ name :: post ->
  forFirstAvailableNode env [NodeNameFromMember leader] (logged w1 [MembersCall (handle tmp)]) =
    Some ((client, Some err), w2) ->
  errors_Is_errEtcdNodeConnection err = false /\
  getLeaderClient NodeNameFromMember env name (node_set (pre ++ name :: post)) w0 =
    Some ((client, Some err), logged w2 [CloseCall (handle tmp)]) /\
  forLeader NodeNameFromMember env (pre ++ name :: post) w =
    Some ((None, Some err), logged w2 [CloseCall (handle tmp)]).
Proof.
  intros Hpre Htmp Hmembers Hleader Hnode Hdial.
  assert (HIs : errors_Is_errEtcdNodeConnection err = false).
  { destruct (forFirstAvailableNode_spec env [NodeNameFromMember leader]
                (logged w1 [MembersCall (handle tmp)])) as (r & w' & evs & E & _ & _ & _ & R);
      [done|].
    rewrite Hdial in E. injection E as <- <-. destruct client; [done|]. apply R. }
  assert (Hget : getLeaderClient NodeNameFromMember env name (node_set (pre ++ name :: post)) w0 =
                 Some ((client, Some err), logged w2 [CloseCall (handle tmp)])).
  { rewrite getLeaderClient_unfold, Htmp. cbv zeta. rewrite Hmembers, Hleader.
    rewrite decide_True by (by apply elem_of_node_set).
    rewrite Hdial. reflexivity. }
  repeat split; [exact HIs | exact Hget |].
  rewrite (forLeader_at _ _ _ _ _ _ _ _ Hpre). simpl.
  unfold bind. rewrite Hget, HIs. reflexivity.
Qed.

Lemma leader_dial_failure_is_fatal_witness :
  exists w',
    forLeader Member_Name env_one_dial ["C"; "B"] fresh =
      Some ((None, Some (errors_Wrap (Aggregate [External "connection refused"])
                           "could not establish a connection to any etcd node")), w') /\
    history w' = [NewForConfigCall; PodsListCall; NewForConfigCall; PodsListCall;
                  CreateClientCall "pod-c" (Some 4); MembersCall 4;
                  NewForConfigCall; PodsListCall; CreateClientCall "pod-c" None;
                  CloseCall 4].
Proof.
  edestruct (leader_dial_failure_is_fatal Member_Name env_one_dial [] "C" ["B"] fresh)
    as (_ & _ & H).
  - reflexivity.
  - vm_compute. reflexivity.
  - reflexivity.
  - reflexivity.
  - vm_compute. set_solver.
  - vm_compute. reflexivity.
  - eexists. split; [exact H | reflexivity].
Defined.

(** C10: a call of [forFirstAvailableNode] on a non-empty list starts with
    a construction of a clientset and, if that succeeds, a listing.  A
    failure of either is the result of the call, whatever the pod map holds;
    the pods listed have no influence on what follows: the loop runs on the
    cached map alone, so a node missing from it fails even when the fresh
    listing shows a pod for it.  Every probe of [forLeader] begins with this
    construction and listing, so a run over [n] failing candidates makes at
    least [n] of them. *)
Theorem forFirstAvailableNode_lists_afresh NodeNameFromMember env :
  (forall names w,
      names <> [] ->
      (forall msg,
          NewForConfig env (history w) = Some msg ->
          forFirstAvailableNode env names w =
            Some ((None, Some (errors_Wrap (External msg)
                                 "unable to create client to target cluster")),
                  logged w [NewForConfigCall])) /\
      (forall msg,
          NewForConfig env (history w) = None ->
          PodsList env (history w ++ [NewForConfigCall]) = inl msg ->
          forFirstAvailableNode env names w =
            Some ((None, Some (errors_Wrap (External msg)
                                 "unable to list etcd-proxy pods in target cluster")),
                  after_listing w)) /\
      (forall pods,
          NewForConfig env (history w) = None ->
          PodsList env (history w ++ [NewForConfigCall]) = inr pods ->
          forFirstAvailableNode env names w =
            forFirstAvailableNode_loop env names [] (after_listing w)) /\
      (exists r w' evs,
          forFirstAvailableNode env names w = Some (r, w') /\
          history w' = history w ++ NewForConfigCall :: evs /\
          (NewForConfig env (history w) = None -> exists evs', evs = PodsListCall :: evs'))) /\
  (forall n w m pods,
      etcdPodMap w = Some m ->
      m !! n = None ->
      NewForConfig env (history w) = None ->
      PodsList env (history w ++ [NewForConfigCall]) = inr pods ->
      forFirstAvailableNode env [n] w =
        Some ((None, Some (errors_Wrap (Aggregate [pod_not_found n])
                             "could not establish a connection to any etcd node")),
              after_listing w)) /\
  (forall name nodes w,
      exists r w' evs,
        getLeaderClient NodeNameFromMember env name nodes w = Some (r, w') /\
        history w' = history w ++ NewForConfigCall :: evs /\
        (NewForConfig env (history w) = None -> exists evs', evs = PodsListCall :: evs')) /\
  (forall nodes names w es w',
      probes_fail NodeNameFromMember env nodes names w = Some (es, w') ->
      exists evs,
        history w' = history w ++ evs /\
        length names <= length (filter is_construction evs) /\
        ((forall h, NewForConfig env h = None) ->
         length names <= length (filter is_listing evs))).
Proof.
  split; [|split; [|split]].
  - intros names w Hne.
    assert (E := forFirstAvailableNode_nonempty env names w Hne).
    split; [|split; [|split]].
    + intros msg Hcfg. by rewrite E, Hcfg.
    + intros msg Hcfg Hl. by rewrite E, Hcfg, Hl.
    + intros pods Hcfg Hl. by rewrite E, Hcfg, Hl.
    + destruct (forFirstAvailableNode_spec env names w Hne) as (r & w' & evs & E' & H & _).
      exists r, w', evs. split; [exact E'|]. split; [exact H|]. intros Hcfg.
      destruct (forFirstAvailableNode_lists env names w Hne Hcfg) as (r2 & w2 & evs2 & E2 & H2).
      rewrite E' in E2. injection E2 as <- <-. rewrite H in H2.
      apply app_inv_head in H2. injection H2 as ->. eauto.
  - intros n w m pods Hm Hn Hcfg Hl. apply (forFirstAvailableNode_single_miss env n w m); eauto.
  - intros name nodes w.
    destruct (getLeaderClient_spec NodeNameFromMember env name nodes w)
      as (r & w' & evs & E & H & L & _).
    eauto 6.
  - apply probes_fail_listings.
Qed.

Lemma forFirstAvailableNode_lists_afresh_witness :
  forFirstAvailableNode env_bad_config ["B"] warm =
    Some ((None, Some (errors_Wrap (External "invalid configuration")
                         "unable to create client to target cluster")),
          logged warm [NewForConfigCall]) /\
  forFirstAvailableNode env_no_listing ["B"] warm =
    Some ((None, Some (errors_Wrap (External "forbidden")
                         "unable to list etcd-proxy pods in target cluster")),
          after_listing warm) /\
  (exists evs, 2 <= length (filter is_listing evs)).
Proof.
  split; [|split].
  - destruct (forFirstAvailableNode_lists_afresh Member_Name env_bad_config) as (H & _).
    destruct (H ["B"] warm) as (Hc & _); [discriminate|].
    apply Hc. reflexivity.
  - destruct (forFirstAvailableNode_lists_afresh Member_Name env_no_listing) as (H & _).
    destruct (H ["B"] warm) as (_ & Hl & _); [discriminate|].
    apply Hl; reflexivity.
  - destruct (forFirstAvailableNode_lists_afresh Member_Name env_abc) as (_ & _ & _ & H).
    edestruct (H (node_set ["A"; "B"]) ["A"; "B"] fresh) as (evs & _ & _ & Hl).
    + vm_compute. reflexivity.
    + exists evs. apply Hl. reflexivity.
Defined.

(** ** Further properties of the generator *)

Section Runs2.
Variable NodeNameFromMember : Member -> string.
Variable env : Env.
Local Abbreviation Is := errors_Is_errEtcdNodeConnection.

Lemma findEtcdProxyPod_events n w :
  exists r w' evs,
    findEtcdProxyPod env n w = Some (r, w') /\
    history w' = history w ++ evs /\
    Forall is_resolver_call evs /\
    filter is_dial evs = [] /\
    match r with
    | (_, Some e) => candidate_error [n] e
    | (_, None) => True
    end.
Proof.
  destruct (etcdPodMap w) as [m|] eqn:Hm.
  - rewrite (findEtcdProxyPod_cached env m n w Hm).
    eexists _, w, []. split; [reflexivity|]. rewrite app_nil_r.
    split; [done|]. split; [constructor|]. split; [done|].
    destruct (m !! n); [done|]. right. left. exists n. split; [by left | done].
  - rewrite (findEtcdProxyPod_uncached env n w Hm).
    destruct (NewForConfig env (history w)) as [msg|].
    { eexists _, _, [NewForConfigCall]. split; [reflexivity|]. split; [done|].
      split; [by repeat constructor|]. split; [done|]. do 3 right. left. by exists msg. }
    destruct (PodsList env (history w ++ [NewForConfigCall])) as [msg|pods].
    { eexists _, _, [NewForConfigCall; PodsListCall]. split; [reflexivity|]. split; [done|].
      split; [by repeat constructor|]. split; [done|]. do 4 right. by exists msg. }
    destruct (Nat.eqb (length pods) 0).
    { eexists _, _, [NewForConfigCall; PodsListCall]. split; [reflexivity|]. split; [done|].
      split; [by repeat constructor|]. split; [done|]. do 2 right. by left. }
    eexists _, _, [NewForConfigCall; PodsListCall].
    split; [reflexivity|]. split; [done|]. split; [by repeat constructor|]. split; [done|].
    destruct (podmap pods !! n); [done|]. right. left. exists n. split; [by left | done].
Qed.

Lemma candidate_error_mono names names' e :
  (forall n, n ∈ names -> n ∈ names') -> candidate_error names e -> candidate_error names' e.
Proof.
  intros Hsub [H|[(n & Hn & H)|H]]; [by left | | by do 2 right].
  right. left. exists n. split; [by apply Hsub | done].
Qed.

Lemma candidate_error_unmarked names e : candidate_error names e -> Is e = false.
Proof. by intros [[? ->]|[(? & _ & ->)|[->|[[? ->]|[? ->]]]]]. Qed.

(** What one turn that fails records. *)
Lemma attempt_fails_error name w err w1 :
  attempt_fails env name w = Some (err, w1) -> candidate_error [name] err.
Proof.
  unfold attempt_fails.
  destruct (findEtcdProxyPod_events name w) as (r & w' & evs & E & _ & _ & _ & R).
  rewrite E. destruct r as [podName [e|]].
  - by intros [= <- <-].
  - destruct (c_createClient_spec env podName w') as [(msg & _ & E2)|(leader & _ & E2)];
      rewrite E2; [|done].
    intros [= <- <-]. left. by exists msg.
Qed.

Lemma attempts_fail_errors names w es w1 :
  attempts_fail env names w = Some (es, w1) -> Forall (candidate_error names) es.
Proof.
  revert w es. induction names as [|name names IH]; intros w es; cbn [attempts_fail].
  - intros [= <- <-]. constructor.
  - destruct (attempt_fails env name w) as [[err w2]|] eqn:E1; [|done].
    destruct (attempts_fail env names w2) as [[es' w3]|] eqn:E2; [|done].
    intros [= <- <-]. constructor.
    + eapply candidate_error_mono; [|exact (attempt_fails_error _ _ _ _ E1)].
      intros n Hn. apply list_elem_of_singleton in Hn as ->. by left.
    + eapply Forall_impl; [exact (IH _ _ E2)|].
      intros e. apply candidate_error_mono. intros n Hn. by right.
Qed.

(** Every run of the loop of [forFirstAvailableNode]: candidates fail one
    after the other until one succeeds or the list is used up. *)
Lemma forFirstAvailableNode_loop_runs names errs w :
  exists r w',
    forFirstAvailableNode_loop env names errs w = Some (r, w') /\
    ((exists es,
         attempts_fail env names w = Some (es, w') /\
         r = (None, Wrap (NewAggregate (errs ++ es))
                      "could not establish a connection to any etcd node")) \/
     (exists pre name post es w1 podName w2 cl,
         names = pre ++ name :: post /\
         attempts_fail env pre w = Some (es, w1) /\
         findEtcdProxyPod env name w1 = Some ((podName, None), w2) /\
         c_createClient env podName w2 = Some ((Some cl, None), w') /\
         r = (Some cl, None))).
Proof.
  revert errs w. induction names as [|name rest IH]; intros errs w.
  - eexists _, w. split; [reflexivity|]. left. exists []. by rewrite app_nil_r.
  - cbn [forFirstAvailableNode_loop attempts_fail]. unfold attempt_fails.
    destruct (findEtcdProxyPod_spec env name w) as (r1 & w1 & _ & E1 & _).
    rewrite (bind_eq _ _ _ _ _ E1), E1. destruct r1 as [podName [err|]].
    + destruct (IH (errs ++ [err]) w1) as (r & w' & E & [(es & Ha & ->)|Hs]).
      * exists (None, Wrap (NewAggregate ((errs ++ [err]) ++ es))
                        "could not establish a connection to any etcd node"), w'.
        split; [exact E|]. left. exists (err :: es). rewrite Ha, <- app_assoc. done.
      * destruct Hs as (pre & nm & post & es & w2 & pn & w3 & cl & -> & Ha & Hf & Hc & ->).
        exists (Some cl, None), w'. split; [exact E|]. right.
        exists (name :: pre), nm, post, (err :: es), w2, pn, w3, cl.
        cbn [attempts_fail]. unfold attempt_fails. rewrite E1, Ha. done.
    + destruct (c_createClient_spec env podName w1) as [(msg & _ & E2)|(leader & _ & E2)];
        rewrite (bind_eq _ _ _ _ _ E2), E2.
      * destruct (IH (errs ++ [External msg]) (logged w1 [CreateClientCall podName None]))
          as (r & w' & E & [(es & Ha & ->)|Hs]).
        -- eexists _, w'. split; [exact E|]. left. exists (External msg :: es).
           rewrite Ha, <- app_assoc. done.
        -- destruct Hs as (pre & nm & post & es & w2 & pn & w3 & cl & -> & Ha & Hf & Hc & ->).
           exists (Some cl, None), w'. split; [exact E|]. right.
           exists (name :: pre), nm, post, (External msg :: es), w2, pn, w3, cl.
           cbn [attempts_fail]. unfold attempt_fails. rewrite E1, E2, Ha. done.
      * eexists _, _. split; [reflexivity|]. right.
        eexists [], name, rest, [], w, podName, w1, _. done.
Qed.


Lemma forFirstAvailableNode_loop_events names errs w :
  exists r w' evs,
    forFirstAvailableNode_loop env names errs w = Some (r, w') /\
    history w' = history w ++ evs /\
    Forall is_resolver_call evs /\
    length (filter is_dial evs) <= length names.
Proof.
  revert errs w. induction names as [|name rest IH]; intros errs w.
  - eexists _, w, []. split; [reflexivity|]. rewrite app_nil_r.
    split; [done|]. split; [constructor | reflexivity].
  - cbn [forFirstAvailableNode_loop].
    destruct (findEtcdProxyPod_events name w) as (r1 & w1 & evs1 & E1 & H1 & F1 & D1 & _).
    rewrite (bind_eq _ _ _ _ _ E1). destruct r1 as [podName [err|]].
    + destruct (IH (errs ++ [err]) w1) as (r & w' & evs & E & H & F & D).
      exists r, w', (evs1 ++ evs). split; [exact E|].
      split; [by rewrite H, H1, app_assoc|].
      split; [by apply Forall_app|].
      rewrite filter_app, D1. simpl. lia.
    + destruct (c_createClient_spec env podName w1) as [(msg & _ & E2)|(leader & _ & E2)];
        rewrite (bind_eq _ _ _ _ _ E2).
      * destruct (IH (errs ++ [External msg]) (logged w1 [CreateClientCall podName None]))
          as (r & w' & evs & E & H & F & D).
        exists r, w', (evs1 ++ CreateClientCall podName None :: evs). split; [exact E|].
        split; [rewrite H; simpl; by rewrite H1, <- !app_assoc|].
        split; [apply Forall_app; split; [done|]; by constructor|].
        rewrite filter_app, D1, filter_cons_True by done. simpl. lia.
      * eexists _, _, (evs1 ++ [CreateClientCall podName (Some (length (history w1)))]).
        split; [reflexivity|].
        split; [simpl; by rewrite H1, app_assoc|].
        split; [apply Forall_app; split; [done|]; by repeat constructor|].
        rewrite filter_app, D1. simpl. lia.
Qed.

(** The calls a run of [forFirstAvailableNode] makes. *)
Lemma forFirstAvailableNode_events names w :
  exists r w' evs,
    forFirstAvailableNode env names w = Some (r, w') /\
    history w' = history w ++ evs /\
    Forall is_resolver_call evs /\
    length (filter is_dial evs) <= length names /\
    opened evs = returned r /\
    opened_within (length (history w)) evs /\
    match r with (Some _, None) | (None, Some _) => True | _ => False end.
Proof.
  destruct names as [|name names].
  { eexists _, w, []. split; [reflexivity|]. rewrite app_nil_r.
    split; [done|]. split; [constructor|]. split; [reflexivity|]. split; [done|].
    split; [|done]. intros h Hh. by apply elem_of_nil in Hh. }
  destruct (forFirstAvailableNode_balance env (name :: names) w)
    as (r & w' & evs & E & H & O & _ & B & R); [done|].
  exists r, w', evs. split; [exact E|]. split; [exact H|].
  assert (G : Forall is_resolver_call evs /\
              length (filter is_dial evs) <= length (name :: names)); [|by destruct G].
  rewrite forFirstAvailableNode_nonempty in E by done.
  destruct (NewForConfig env (history w)) as [msg|].
  { injection E as <- <-. simpl in H. apply app_inv_head in H as <-.
    split; [by repeat constructor | simpl; lia]. }
  destruct (PodsList env (history w ++ [NewForConfigCall])) as [msg|pods].
  { injection E as <- <-. simpl in H. apply app_inv_head in H as <-.
    split; [by repeat constructor | simpl; lia]. }
  destruct (forFirstAvailableNode_loop_events (name :: names) [] (after_listing w))
    as (r2 & w2 & evs2 & E2 & H2 & F2 & D2).
  rewrite E2 in E. injection E as <- <-. rewrite H2 in H. simpl in H.
  rewrite <- app_assoc in H. apply app_inv_head in H as <-.
  split; [by repeat constructor | exact D2].
Qed.

End Runs2.

(** X3: every run of [forFirstAvailableNode] on a non-empty list: the
    construction fails, or the listing fails, or the candidates are tried in
    order, failing one after the other until one succeeds or none is left. *)
Theorem forFirstAvailableNode_runs env names w :
  names <> [] ->
  exists r w',
    forFirstAvailableNode env names w = Some (r, w') /\
    ((exists msg,
         NewForConfig env (history w) = Some msg /\
         r = (None, Some (errors_Wrap (External msg)
                            "unable to create client to target cluster")) /\
         w' = logged w [NewForConfigCall]) \/
     (exists msg,
         NewForConfig env (history w) = None /\
         PodsList env (history w ++ [NewForConfigCall]) = inl msg /\
         r = (None, Some (errors_Wrap (External msg)
                            "unable to list etcd-proxy pods in target cluster")) /\
         w' = after_listing w) \/
     (exists es,
         attempts_fail env names (after_listing w) = Some (es, w') /\
         length es = length names /\
         r = (None, Some (errors_Wrap (Aggregate es)
                            "could not establish a connection to any etcd node"))) \/
     (exists pre name post es w1 podName w2 cl,
         names = pre ++ name :: post /\
         attempts_fail env pre (after_listing w) = Some (es, w1) /\
         findEtcdProxyPod env name w1 = Some ((podName, None), w2) /\
         c_createClient env podName w2 = Some ((Some cl, None), w') /\
         r = (Some cl, None))).
Proof.
  intros Hne. rewrite forFirstAvailableNode_nonempty by exact Hne.
  destruct (NewForConfig env (history w)) as [msg|].
  { eexists _, _. split; [reflexivity|]. left. by exists msg. }
  destruct (PodsList env (history w ++ [NewForConfigCall])) as [msg|pods].
  { eexists _, _. split; [reflexivity|]. right. left. by exists msg. }
  destruct (forFirstAvailableNode_loop_runs env names [] (after_listing w))
    as (r & w' & E & [(es & Ha & ->)|Hs]).
  - exists (None, Wrap (NewAggregate ([] ++ es))
                    "could not establish a connection to any etcd node"), w'.
    split; [exact E|]. right. right. left. exists es.
    assert (Hlen := attempts_fail_length env _ _ _ _ Ha).
    split; [exact Ha|]. split; [exact Hlen|].
    destruct es; [by destruct names | reflexivity].
  - exists r, w'. split; [exact E|]. by do 3 right.
Qed.

Lemma forFirstAvailableNode_runs_witness :
  exists w',
    forFirstAvailableNode env_one_dial ["A"; "B"; "C"] fresh =
      Some ((Some {| handle := 4; Endpoint := "pod-b"; LeaderID := 7 |}, None), w').
Proof.
  destruct (forFirstAvailableNode_runs env_one_dial ["A"; "B"; "C"] fresh)
    as (r & w' & E & _); [discriminate|].
  exists w'. rewrite E. vm_compute in E. by injection E as <- <-.
Defined.

(** X4: an error of [forFirstAvailableNode] is the invalid-argument error (empty
    list, nothing called), a failed construction, a failed listing, or the
    aggregate of one recorded error per candidate; it never satisfies
    [errors.Is(_, errEtcdNodeConnection)] and comes without a client. *)
Theorem forFirstAvailableNode_errors env names w client err w' :
  forFirstAvailableNode env names w = Some ((client, Some err), w') ->
  client = None /\
  errors_Is_errEtcdNodeConnection err = false /\
  ((names = [] /\ err = invalid_argument /\ w' = w) \/
   (exists msg,
       NewForConfig env (history w) = Some msg /\
       err = errors_Wrap (External msg) "unable to create client to target cluster") \/
   (exists msg,
       PodsList env (history w ++ [NewForConfigCall]) = inl msg /\
       err = errors_Wrap (External msg) "unable to list etcd-proxy pods in target cluster") \/
   (exists es,
       err = errors_Wrap (Aggregate es) "could not establish a connection to any etcd node" /\
       length es = length names /\
       Forall (candidate_error names) es)).
Proof.
  intros E. destruct names as [|name names].
  { injection E as <- <- <-. split; [done|]. split; [done|]. by left. }
  destruct (forFirstAvailableNode_spec env (name :: names) w)
    as (r & w2 & evs & E2 & _ & _ & _ & R); [done|].
  rewrite E in E2. injection E2 as <- <-.
  destruct client as [cl|]; [done|]. destruct R as [_ HIs].
  split; [done|]. split; [exact HIs|]. right.
  rewrite forFirstAvailableNode_nonempty in E by done.
  destruct (NewForConfig env (history w)) as [msg|].
  { injection E as <- <-. left. by exists msg. }
  destruct (PodsList env (history w ++ [NewForConfigCall])) as [msg|pods].
  { injection E as <- <-. right. left. by exists msg. }
  destruct (forFirstAvailableNode_loop_runs env (name :: names) [] (after_listing w))
    as (r & w2 & E2 & [(es & Ha & ->)|Hs]); rewrite E in E2.
  - injection E2 as Herr <-. right. right. exists es.
    assert (Hlen := attempts_fail_length env _ _ _ _ Ha).
    destruct es; [done|]. injection Herr as ->.
    split; [done|]. split; [done|]. exact (attempts_fail_errors env _ _ _ _ Ha).
  - destruct Hs as (? & ? & ? & ? & ? & ? & ? & ? & _ & _ & _ & _ & ->). done.
Qed.

Lemma forFirstAvailableNode_errors_witness :
  errors_Is_errEtcdNodeConnection
    (errors_Wrap (Aggregate [pod_not_found "A"; External "connection refused"])
       "could not establish a connection to any etcd node") = false.
Proof.
  edestruct (forFirstAvailableNode_errors env_one_dial ["A"; "B"]
               (logged fresh [CreateClientCall "pod-c" (Some 0)])) as (_ & H & _).
  - vm_compute. reflexivity.
  - exact H.
Defined.

(** X5: when [forFirstAvailableNode] returns a client, the client was created
    by the last call in the log, to the pod the map holds for one of the
    candidates, and carries the leader id that call reported. *)
Theorem forFirstAvailableNode_client env names w cl err w' :
  forFirstAvailableNode env names w = Some ((Some cl, err), w') ->
  err = None /\
  exists name m hist,
    name ∈ names /\
    etcdPodMap w' = Some m /\
    m !! name = Some (Endpoint cl) /\
    history w' = hist ++ [CreateClientCall (Endpoint cl) (Some (handle cl))] /\
    handle cl = length hist /\
    createClient env hist (Endpoint cl) = inr (LeaderID cl).
Proof.
  intros E. destruct names as [|name names]; [done|].
  rewrite forFirstAvailableNode_nonempty in E by done.
  destruct (NewForConfig env (history w)) as [msg|]; [done|].
  destruct (PodsList env (history w ++ [NewForConfigCall])) as [msg|pods]; [done|].
  destruct (forFirstAvailableNode_loop_runs env (name :: names) [] (after_listing w))
    as (r & w2 & E2 & [(es & Ha & ->)|Hs]); rewrite E in E2; [done|].
  destruct Hs as (pre & nm & post & es & w1 & podName & w3 & cl' & Hn & _ & Hf & Hc & ->).
  injection E2 as -> -> <-. split; [done|].
  destruct (findEtcdProxyPod_spec env nm w1) as (r1 & w1' & evs1 & E1 & _ & _ & _ & _ & R1).
  rewrite Hf in E1. injection E1 as <- <-. destruct R1 as (m & Hm & Hl).
  destruct (c_createClient_spec env podName w3) as [(msg & _ & E3)|(leader & Hd & E3)];
    rewrite E3 in Hc; [done|]. injection Hc as <- <-.
  exists nm, m, (history w3). simpl. repeat split; try done.
  rewrite Hn. apply elem_of_app. right. by left.
Qed.

Lemma forFirstAvailableNode_client_witness :
  createClient env_abc [NewForConfigCall; PodsListCall; NewForConfigCall; PodsListCall]
    "pod-b" = inr 7%Z.
Proof.
  edestruct (forFirstAvailableNode_client env_abc ["A"; "B"; "C"] fresh)
    as (_ & name & m & hist & _ & _ & _ & Hh & _ & Hc).
  - vm_compute. reflexivity.
  - simpl in Hh. apply (app_inj_tail
      [NewForConfigCall; PodsListCall; NewForConfigCall; PodsListCall]) in Hh as [<- _].
    exact Hc.
Defined.

(** X2: whatever the candidates and the collaborators, [forFirstAvailableNode]
    returns either a client or an error, calls the clientset, the listing
    and [createClient] only (never [Members] or [Close]), dials at most once
    per candidate, and leaves exactly the connection it returns open. *)
Theorem forFirstAvailableNode_footprint env names w :
  exists r w' evs,
    forFirstAvailableNode env names w = Some (r, w') /\
    history w' = history w ++ evs /\
    Forall is_resolver_call evs /\
    length (filter is_dial evs) <= length names /\
    opened evs = returned r /\
    closed evs = [] /\
    match r with (Some _, None) | (None, Some _) => True | _ => False end.
Proof.
  destruct (forFirstAvailableNode_events env names w)
    as (r & w' & evs & E & H & F & D & O & _ & R).
  exists r, w', evs. repeat split; try done.
  clear -F. induction F as [|e evs He _ IH]; [done|].
  destruct e; try done.
Qed.

Lemma podmap_foldl (pods : list Pod) (m : gmap string string) (n : string) :
  foldl (fun m pod => <[Pod_NodeName pod := Pod_Name pod]> m) m pods !! n =
    match last (filter (fun pod => Pod_NodeName pod = n) pods) with
    | Some pod => Some (Pod_Name pod)
    | None => m !! n
    end.
Proof.
  revert m. induction pods as [|pod pods IH]; intros m; [reflexivity|].
  cbn [foldl]. rewrite IH. destruct (decide (Pod_NodeName pod = n)) as [Hn|Hn].
  - rewrite filter_cons_True by done. rewrite last_cons.
    destruct (last (filter _ pods)); [reflexivity|]. by rewrite <- Hn, lookup_insert_eq.
  - rewrite filter_cons_False by done.
    destruct (last (filter _ pods)); [reflexivity|]. by rewrite lookup_insert_ne.
Qed.

(** X6: the map the listing is turned into holds, for each node, the name of
    the last pod listed on that node, and nothing for a node without a pod. *)
Theorem podmap_lookup (pods : list Pod) (n : string) :
  podmap pods !! n = Pod_Name <$> last (filter (fun pod => Pod_NodeName pod = n) pods) /\
  (podmap pods !! n = None <-> Forall (fun pod => Pod_NodeName pod <> n) pods).
Proof.
  assert (E : podmap pods !! n =
              Pod_Name <$> last (filter (fun pod => Pod_NodeName pod = n) pods)).
  { unfold podmap. rewrite podmap_foldl.
    destruct (last _); [reflexivity | apply lookup_empty]. }
  split; [exact E|]. rewrite E, fmap_None, last_None.
  rewrite Forall_forall. split.
  - intros Hnil pod Hin Hn.
    assert (Hf : pod ∈ filter (fun pod => Pod_NodeName pod = n) pods)
      by (by apply list_elem_of_filter).
    rewrite Hnil in Hf. by apply elem_of_nil in Hf.
  - intros Hall. destruct (filter _ pods) as [|pod l] eqn:Hf; [done|].
    assert (Hin : pod ∈ filter (fun pod => Pod_NodeName pod = n) pods)
      by (rewrite Hf; by left).
    apply list_elem_of_filter in Hin as [Hn Hin]. by destruct (Hall pod Hin).
Qed.

(** X7: the scan for the leader stops at the first member with the reported id:
    it returns that member, and nothing exactly when no member has the id. *)
Theorem leaderMember_first (members : list Member) (id : Z) :
  match leaderMember members id with
  | Some leader =>
      exists before after,
        members = before ++ leader :: after /\
        Member_ID leader = id /\
        Forall (fun member => Member_ID member <> id) before
  | None => Forall (fun member => Member_ID member <> id) members
  end.
Proof.
  unfold leaderMember. induction members as [|member members IH]; [constructor|].
  cbn [List.find]. destruct (Z.eqb_spec (Member_ID member) id) as [Heq|Hne].
  - exists [], members. done.
  - destruct (List.find _ members) as [leader|].
    + destruct IH as (before & after & -> & Hid & Hb).
      exists (member :: before), after. split; [done|]. split; [done|]. by constructor.
    + by constructor.
Qed.

(** X8: the set of candidates [forLeader] checks the leader's node against
    holds exactly the names of the list, whatever their order or number of
    occurrences. *)
Theorem node_set_list (names : list string) : node_set names = list_to_set names.
Proof.
  apply set_eq. intros n. rewrite elem_of_node_set, elem_of_list_to_set. done.
Qed.

Section Leader.
Variable NodeNameFromMember : Member -> string.
Variable env : Env.
Local Abbreviation Is := errors_Is_errEtcdNodeConnection.

Lemma getLeaderClient_exit nodeName allNodes w r w' :
  getLeaderClient NodeNameFromMember env nodeName allNodes w = Some (r, w') ->
  probe_exit NodeNameFromMember env nodeName allNodes w r w'.
Proof.
  rewrite getLeaderClient_unfold.
  destruct (forFirstAvailableNode_spec env [nodeName] w)
    as (r1 & w1 & evs1 & E1 & _ & _ & _ & R1); [done|].
  rewrite E1. destruct r1 as [[tmp|] [err|]]; try done; clear R1.
  2: { intros [= <- <-]. by apply exit_unreachable. }
  cbv zeta. destruct (Members env (history w1) tmp) as [msg|members] eqn:Hq.
  { intros [= <- <-]. by eapply exit_query_failed. }
  destruct (leaderMember members (LeaderID tmp)) as [leader|] eqn:Hl.
  2: { intros [= <- <-]. by eapply exit_leader_unknown. }
  destruct (decide (NodeNameFromMember leader ∈ allNodes)) as [Hin|Hin].
  2: { intros [= <- <-]. by eapply exit_leader_elsewhere. }
  destruct (forFirstAvailableNode env [NodeNameFromMember leader] _) as [[r2 w2]|] eqn:E2;
    [|done].
  intros [= <- <-]. by eapply exit_redial.
Qed.

(** Every run of the loop of [forLeader]: probes come back with the
    connection marker one after the other, until one is conclusive or the
    list is used up. *)
Lemma forLeader_loop_runs nodes names errs w :
  exists r w',
    forLeader_loop NodeNameFromMember env nodes names errs w = Some (r, w') /\
    ((exists es,
         probes_fail NodeNameFromMember env nodes names w = Some (es, w') /\
         r = (None, Wrap (NewAggregate (errs ++ es))
                      "could not establish a connection to the etcd leader")) \/
     (exists pre name post es w0 r1,
         names = pre ++ name :: post /\
         probes_fail NodeNameFromMember env nodes pre w = Some (es, w0) /\
         getLeaderClient NodeNameFromMember env name nodes w0 = Some (r1, w') /\
         conclusive r1 /\
         r = settle r1)).
Proof.
  revert errs w. induction names as [|name rest IH]; intros errs w.
  - eexists _, w. split; [reflexivity|]. left. exists []. by rewrite app_nil_r.
  - cbn [forLeader_loop probes_fail]. unfold probe_fails.
    destruct (getLeaderClient_spec NodeNameFromMember env name nodes w)
      as (r1 & w1 & _ & E1 & _).
    rewrite (bind_eq _ _ _ _ _ E1), E1. destruct r1 as [cl [err|]].
    + destruct (Is err) eqn:HIs.
      * destruct (IH (errs ++ [err]) w1) as (r & w' & E & [(es & Ha & ->)|Hs]).
        -- eexists _, w'. split; [exact E|]. left. exists (err :: es).
           rewrite Ha, <- app_assoc. done.
        -- destruct Hs as (pre & nm & post & es & w0 & r1 & -> & Ha & Hg & Hc & ->).
           exists (settle r1), w'. split; [exact E|]. right.
           exists (name :: pre), nm, post, (err :: es), w0, r1.
           cbn [probes_fail]. unfold probe_fails. rewrite E1, HIs, Ha. done.
      * eexists _, w1. split; [reflexivity|]. right.
        exists [], name, rest, [], w, (cl, Some err). done.
    + eexists _, w1. split; [reflexivity|]. right.
      exists [], name, rest, [], w, (cl, None). done.
Qed.

End Leader.

(** X9: [getLeaderClient] marks an error with [errEtcdNodeConnection] exactly
    when the problem was with the given node: the connect to it failed, or
    the member query on it failed. *)
Theorem getLeaderClient_marks_node_problems
    NodeNameFromMember env nodeName allNodes w client err w' :
  getLeaderClient NodeNameFromMember env nodeName allNodes w = Some ((client, Some err), w') ->
  errors_Is_errEtcdNodeConnection err = true <->
  ((exists e1 w1, forFirstAvailableNode env [nodeName] w = Some ((None, Some e1), w1)) \/
   (exists tmp w1 msg,
       forFirstAvailableNode env [nodeName] w = Some ((Some tmp, None), w1) /\
       Members env (history w1) tmp = inl msg)).
Proof.
  intros E. apply getLeaderClient_exit in E.
  inversion E as [e1 w1 H1|tmp w1 msg H1 H2|tmp w1 members H1 H2 H3
                 |tmp w1 members leader H1 H2 H3 H4|tmp w1 members leader r w2 H1 H2 H3 H4 H5];
    subst.
  - split; [|intros _; apply Is_marked]. intros _. left. eauto.
  - split; [|intros _; apply Is_marked]. intros _. right. eauto.
  - split; [done|]. intros [(e1 & w2 & H)|(tmp' & w2 & msg & H & Hq)]; rewrite H1 in H.
    + done.
    + injection H as <- <-. by rewrite H2 in Hq.
  - split; [done|]. intros [(e1 & w2 & H)|(tmp' & w2 & msg & H & Hq)]; rewrite H1 in H.
    + done.
    + injection H as <- <-. by rewrite H2 in Hq.
  - assert (HIs : errors_Is_errEtcdNodeConnection err = false).
    { destruct (forFirstAvailableNode_spec env [NodeNameFromMember leader]
                  (logged w1 [MembersCall (handle tmp)]))
        as (r & w3 & evs3 & E3 & _ & _ & _ & R); [done|].
      rewrite H5 in E3. injection E3 as <- <-. destruct client; [done | apply R]. }
    rewrite HIs. split; [done|].
    intros [(e1 & w3 & H)|(tmp' & w3 & msg & H & Hq)]; rewrite H1 in H.
    + done.
    + injection H as <- <-. by rewrite H2 in Hq.
Qed.

Lemma getLeaderClient_marks_node_problems_witness :
  errors_Is_errEtcdNodeConnection
    (Aggregate [External "context deadline exceeded"; errEtcdNodeConnection]) = true.
Proof.
  edestruct (getLeaderClient_marks_node_problems Member_Name env_abc "B"
               (node_set ["A"; "B"; "C"]) warm) as [_ H].
  - vm_compute. reflexivity.
  - apply H. right. eexists _, _, _. split; [vm_compute; reflexivity | reflexivity].
Defined.

Section Leader2.
Variable NodeNameFromMember : Member -> string.
Variable env : Env.
Local Abbreviation Is := errors_Is_errEtcdNodeConnection.

Lemma forFirstAvailableNode_error_wrapped names w client err w' :
  names <> [] ->
  forFirstAvailableNode env names w = Some ((client, Some err), w') ->
  Is err = false /\ exists cause msg, err = errors_Wrap cause msg.
Proof.
  intros Hne E.
  destruct (forFirstAvailableNode_spec env names w Hne) as (r & w2 & evs & E2 & _ & _ & _ & R).
  rewrite E in E2. injection E2 as <- <-. destruct client; [done|]. split; [apply R|].
  clear R. rewrite forFirstAvailableNode_nonempty in E by exact Hne.
  destruct (NewForConfig env (history w)) as [msg|]; [injection E as <- <-; eauto|].
  destruct (PodsList env (history w ++ [NewForConfigCall])) as [msg|pods];
    [injection E as <- <-; eauto|].
  destruct (forFirstAvailableNode_loop_spec env names [] (after_listing w))
    as (r & w2 & evs2 & E2 & _ & _ & _ & R).
  rewrite E in E2. injection E2 as <- <-. destruct R as (_ & _ & es & -> & _). eauto.
Qed.

(** What a conclusive probe returns. *)
Lemma getLeaderClient_conclusive nodeName allNodes w r w' :
  getLeaderClient NodeNameFromMember env nodeName allNodes w = Some (r, w') ->
  conclusive r ->
  exists tmp w1 members,
    forFirstAvailableNode env [nodeName] w = Some ((Some tmp, None), w1) /\
    Members env (history w1) tmp = inr members /\
    match r with
    | (Some cl, None) =>
        exists leader m,
          leaderMember members (LeaderID tmp) = Some leader /\
          NodeNameFromMember leader ∈ allNodes /\
          etcdPodMap w' = Some m /\
          m !! nodeName = Some (Endpoint tmp) /\
          m !! NodeNameFromMember leader = Some (Endpoint cl)
    | (None, Some err) =>
        err = LeaderMemberMissing (LeaderID tmp) /\
        leaderMember members (LeaderID tmp) = None \/
        (exists leader,
            leaderMember members (LeaderID tmp) = Some leader /\
            (NodeNameFromMember leader ∉ allNodes) /\
            err = LeaderNodeMissing (Member_ID leader) (NodeNameFromMember leader)) \/
        (exists leader cause msg,
            leaderMember members (LeaderID tmp) = Some leader /\
            NodeNameFromMember leader ∈ allNodes /\
            err = errors_Wrap cause msg)
    | _ => False
    end.
Proof.
  intros E Hc. apply getLeaderClient_exit in E.
  inversion E as [e1 w1 H1|tmp w1 msg H1 H2|tmp w1 members H1 H2 H3
                 |tmp w1 members leader H1 H2 H3 H4|tmp w1 members leader r2 w2 H1 H2 H3 H4 H5];
    subst.
  - unfold conclusive in Hc. by rewrite Is_marked in Hc.
  - unfold conclusive in Hc. by rewrite Is_marked in Hc.
  - exists tmp, w1, members. split; [done|]. split; [done|]. by left.
  - exists tmp, w1, members. split; [done|]. split; [done|]. right. left. by exists leader.
  - exists tmp, w1, members. split; [done|]. split; [done|].
    destruct (forFirstAvailableNode_spec env [nodeName] w)
      as (r0 & w0 & evs0 & E0 & _ & _ & _ & R0); [done|].
    rewrite H1 in E0. injection E0 as <- <-.
    destruct R0 as (_ & nm0 & m0 & _ & _ & _ & Hnm0 & Hm0 & Hl0).
    apply list_elem_of_singleton in Hnm0 as ->.
    destruct (forFirstAvailableNode_spec env [NodeNameFromMember leader]
                (logged w1 [MembersCall (handle tmp)]))
      as (r2 & w3 & evs3 & E3 & _ & _ & K & R); [done|].
    rewrite H5 in E3. injection E3 as <- <-.
    destruct r as [[cl|] [err|]]; try done.
    + destruct R as (_ & nm & m & _ & _ & _ & Hnm & Hm & Hl).
      apply list_elem_of_singleton in Hnm as ->.
      assert (Hm3 := K m0 Hm0). rewrite Hm3 in Hm. injection Hm as <-.
      exists leader, m0. repeat split; done.
    + destruct (forFirstAvailableNode_error_wrapped [NodeNameFromMember leader] _ _ _ _
                  ltac:(done) H5)
        as (_ & cause & msg & ->).
      right. right. exists leader, cause, msg. done.
Qed.

End Leader2.

(** X10: every run of [forLeader] on a non-empty list: the candidates are probed
    in order; probes that come back with the connection marker are passed
    over, and the first other probe decides the result, or no candidate is
    left and the marked errors are returned as one aggregate. *)
Theorem forLeader_runs NodeNameFromMember env names w :
  names <> [] ->
  exists r w',
    forLeader NodeNameFromMember env names w = Some (r, w') /\
    ((exists es,
         probes_fail NodeNameFromMember env (node_set names) names w = Some (es, w') /\
         length es = length names /\
         r = (None, Some (errors_Wrap (Aggregate es)
                            "could not establish a connection to the etcd leader"))) \/
     (exists pre name post es w0 r1,
         names = pre ++ name :: post /\
         probes_fail NodeNameFromMember env (node_set names) pre w = Some (es, w0) /\
         getLeaderClient NodeNameFromMember env name (node_set names) w0 = Some (r1, w') /\
         conclusive r1 /\
         r = settle r1)).
Proof.
  intros Hne. unfold forLeader. destruct names as [|n names]; [done|].
  change (Nat.eqb (length (n :: names)) 0) with false. cbv iota.
  destruct (forLeader_loop_runs NodeNameFromMember env (node_set (n :: names)) (n :: names) [] w)
    as (r & w' & E & [(es & Ha & ->)|Hs]).
  - eexists _, w'. split; [exact E|]. left. exists es.
    destruct (probes_fail_spec NodeNameFromMember env _ _ _ _ _ Ha) as [Hlen _].
    split; [exact Ha|]. split; [exact Hlen|]. by destruct es.
  - exists r, w'. split; [exact E|]. by right.
Qed.

Lemma forLeader_runs_witness :
  exists r w', forLeader Member_Name env_lost_leader ["B"; "C"] fresh = Some (r, w').
Proof.
  destruct (forLeader_runs Member_Name env_lost_leader ["B"; "C"] fresh)
    as (r & w' & E & _); [discriminate|].
  by exists r, w'.
Defined.

(** X11: after probes that came back with the connection
    marker, the first probe that comes back otherwise is the result of
    [forLeader], and the world it leaves is the world of the call: the
    candidates after it are not touched. *)
Theorem forLeader_first_conclusive_probe
    NodeNameFromMember env pre name post w es w0 r1 w1 :
  probes_fail NodeNameFromMember env (node_set (pre ++ name :: post)) pre w = Some (es, w0) ->
  getLeaderClient NodeNameFromMember env name (node_set (pre ++ name :: post)) w0 =
    Some (r1, w1) ->
  conclusive r1 ->
  forLeader NodeNameFromMember env (pre ++ name :: post) w = Some (settle r1, w1).
Proof.
  intros Hpre Hget Hc.
  rewrite (forLeader_at NodeNameFromMember env _ _ _ _ _ _ Hpre).
  cbn [forLeader_loop]. rewrite (bind_eq _ _ _ _ _ Hget).
  destruct r1 as [cl [err|]]; [|reflexivity]. simpl in Hc. rewrite Hc. reflexivity.
Qed.

Lemma forLeader_first_conclusive_probe_witness :
  exists w1,
    forLeader Member_Name env_abc ["A"; "B"; "C"] fresh =
      Some ((Some {| handle := 15; Endpoint := "pod-c"; LeaderID := 7 |}, None), w1).
Proof.
  eexists.
  eapply (forLeader_first_conclusive_probe Member_Name env_abc ["A"; "B"] "C" [] fresh
            _ _ (Some {| handle := 15; Endpoint := "pod-c"; LeaderID := 7 |}, None)).
  - vm_compute. reflexivity.
  - vm_compute. reflexivity.
  - exact I.
Defined.

(** X12: a client returned by [forLeader] is connected to the pod that the map
    holds for the node of the leader, as reported by the member list of a
    candidate that was probed; that node is one of the candidates. *)
Theorem forLeader_client NodeNameFromMember env names w cl err w' :
  forLeader NodeNameFromMember env names w = Some ((Some cl, err), w') ->
  err = None /\
  exists name tmp hist members leader m,
    name ∈ names /\
    Members env hist tmp = inr members /\
    leaderMember members (LeaderID tmp) = Some leader /\
    NodeNameFromMember leader ∈ names /\
    etcdPodMap w' = Some m /\
    m !! name = Some (Endpoint tmp) /\
    m !! NodeNameFromMember leader = Some (Endpoint cl).
Proof.
  intros E. destruct names as [|n names]; [done|].
  unfold forLeader in E. change (Nat.eqb (length (n :: names)) 0) with false in E.
  cbv iota in E.
  destruct (forLeader_loop_runs NodeNameFromMember env (node_set (n :: names)) (n :: names) [] w)
    as (r & w2 & E2 & [(es & _ & ->)|Hs]); rewrite E in E2; [done|].
  destruct Hs as (pre & name & post & es & w0 & r1 & Hn & _ & Hget & Hc & ->).
  injection E2 as Hr <-.
  destruct (getLeaderClient_conclusive NodeNameFromMember env _ _ _ _ _ Hget Hc)
    as (tmp & w1 & members & _ & Hq & R).
  destruct r1 as [[cl'|] [err'|]]; try done. injection Hr as -> ->.
  split; [done|]. destruct R as (leader & m & Hl & Hin & Hm & Hm1 & Hm2).
  exists name, tmp, (history w1), members, leader, m. repeat split; try done.
  - rewrite Hn. apply elem_of_app. right. by left.
  - by apply elem_of_node_set in Hin.
Qed.

Lemma forLeader_client_witness :
  exists (leader : Member) (m : gmap string string),
    Member_Name leader ∈ ["A"; "B"; "C"] /\ m !! Member_Name leader = Some "pod-c".
Proof.
  edestruct (forLeader_client Member_Name env_abc ["A"; "B"; "C"] fresh
               {| handle := 15; Endpoint := "pod-c"; LeaderID := 7 |})
    as (_ & name & tmp & hist & members & leader & m & _ & _ & _ & Hin & _ & _ & Hm).
  - vm_compute. reflexivity.
  - exists leader, m. split; [exact Hin | exact Hm].
Defined.

(** X13: an error of [forLeader] is the invalid-argument error (empty list,
    nothing called), or the aggregate of the marked errors of the probes of
    all candidates, in order, which itself satisfies
    [errors.Is(_, errEtcdNodeConnection)], or an error that does not.  The
    latter comes from the first candidate [name] whose probe is not marked:
    the connect to [name] succeeded, its member query returned [members], and
    the error is the leader id of that connection without a member in
    [members], or the leader found in [members] with a node that is no
    candidate, or the error, a wrapped one, that the second
    [forFirstAvailableNode], on the leader's node alone, returned.  In
    each case the temporary connection is closed last. *)
Theorem forLeader_errors NodeNameFromMember env names w client err w' :
  forLeader NodeNameFromMember env names w = Some ((client, Some err), w') ->
  client = None /\
  ((names = [] /\ err = invalid_argument /\ w' = w) \/
   (errors_Is_errEtcdNodeConnection err = true /\
    exists es,
      probes_fail NodeNameFromMember env (node_set names) names w = Some (es, w') /\
      err = errors_Wrap (Aggregate es) "could not establish a connection to the etcd leader" /\
      length es = length names /\
      Forall (fun e => errors_Is_errEtcdNodeConnection e = true) es) \/
   (errors_Is_errEtcdNodeConnection err = false /\
    exists pre name post es w0 tmp w1 members,
      names = pre ++ name :: post /\
      probes_fail NodeNameFromMember env (node_set names) pre w = Some (es, w0) /\
      forFirstAvailableNode env [name] w0 = Some ((Some tmp, None), w1) /\
      Members env (history w1) tmp = inr members /\
      ((leaderMember members (LeaderID tmp) = None /\
        err = LeaderMemberMissing (LeaderID tmp) /\
        w' = logged w1 [MembersCall (handle tmp); CloseCall (handle tmp)]) \/
       (exists leader,
           leaderMember members (LeaderID tmp) = Some leader /\
           (NodeNameFromMember leader ∉ names) /\
           err = LeaderNodeMissing (Member_ID leader) (NodeNameFromMember leader) /\
           w' = logged w1 [MembersCall (handle tmp); CloseCall (handle tmp)]) \/
       (exists leader w2 cause msg,
           leaderMember members (LeaderID tmp) = Some leader /\
           NodeNameFromMember leader ∈ names /\
           forFirstAvailableNode env [NodeNameFromMember leader]
             (logged w1 [MembersCall (handle tmp)]) = Some ((None, Some err), w2) /\
           err = errors_Wrap cause msg /\
           w' = logged w2 [CloseCall (handle tmp)])))).
Proof.
  intros E. destruct names as [|n names].
  { injection E as <- <- <-. split; [done|]. by left. }
  unfold forLeader in E. change (Nat.eqb (length (n :: names)) 0) with false in E.
  cbv iota in E.
  destruct (forLeader_loop_runs NodeNameFromMember env (node_set (n :: names)) (n :: names) [] w)
    as (r & w2 & E2 & [(es & Ha & ->)|Hs]); rewrite E in E2.
  - injection E2 as -> Herr <-. split; [done|]. right. left.
    destruct (probes_fail_spec NodeNameFromMember env _ _ _ _ _ Ha) as [Hlen HIs].
    destruct es as [|e es]; [done|]. injection Herr as ->. split.
    + apply Forall_cons in HIs as [He _]. simpl. by rewrite He.
    + by exists (e :: es).
  - destruct Hs as (pre & name & post & es & w0 & r1 & Hn & Hpre & Hget & Hc & ->).
    injection E2 as Hr <-.
    apply getLeaderClient_exit in Hget.
    inversion Hget as [e1 w1 H1|tmp w1 msg H1 H2|tmp w1 members H1 H2 H3
                      |tmp w1 members leader H1 H2 H3 H4
                      |tmp w1 members leader r2 w3 H1 H2 H3 H4 H5];
      subst r1; try subst w'.
    + unfold conclusive in Hc. by rewrite Is_marked in Hc.
    + unfold conclusive in Hc. by rewrite Is_marked in Hc.
    + injection Hr as -> ->. split; [done|]. right. right. split; [done|].
      exists pre, name, post, es, w0, tmp, w1, members.
      do 4 (split; [done|]). by left.
    + injection Hr as -> ->. split; [done|]. right. right. split; [done|].
      exists pre, name, post, es, w0, tmp, w1, members.
      do 4 (split; [done|]). right. left. exists leader.
      split; [done|]. split; [|done]. intros Hin. apply H4. by apply elem_of_node_set.
    + destruct r2 as [[cl'|] [err'|]].
      * destruct (forFirstAvailableNode_spec env [NodeNameFromMember leader]
                    (logged w1 [MembersCall (handle tmp)]))
          as (r3 & w4 & evs3 & E3 & _ & _ & _ & R); [done|].
        rewrite H5 in E3. injection E3 as <- <-. done.
      * done.
      * injection Hr as -> ->. split; [done|]. right. right. split; [exact Hc|].
        destruct (forFirstAvailableNode_error_wrapped env [NodeNameFromMember leader] _ _ _ _
                    ltac:(done) H5) as (_ & cause & msg & Hw).
        exists pre, name, post, es, w0, tmp, w1, members.
        do 4 (split; [done|]). right. right. exists leader, w3, cause, msg.
        split; [done|]. split; [by apply elem_of_node_set in H4|]. done.
      * done.
Qed.

Lemma forLeader_errors_witness :
  exists tmp members,
    leaderMember members (LeaderID tmp) = None /\
    LeaderMemberMissing 9 = LeaderMemberMissing (LeaderID tmp).
Proof.
  edestruct (forLeader_errors Member_Name env_lost_leader ["B"; "C"] fresh)
    as (_ & [(Hn & _)|[(HIs & _)|(_ & pre & name & post & es & w0 & tmp & w1 & members & _ & _
                                   & _ & _ & [(Hl & H & _)|[(leader & _ & _ & H & _)
                                                            |(leader & w2 & c & m & _ & _ & _ & H & _)]])]]).
  - vm_compute. reflexivity.
  - discriminate Hn.
  - discriminate HIs.
  - exists tmp, members. split; [exact Hl | exact H].
  - discriminate H.
  - discriminate H.
Defined.

Section Bounds.
Variable NodeNameFromMember : Member -> string.
Variable env : Env.
Local Abbreviation Is := errors_Is_errEtcdNodeConnection.

Lemma forFirstAvailableNode_single_dials n w r w' :
  forFirstAvailableNode env [n] w = Some (r, w') ->
  exists evs, history w' = history w ++ evs /\ length (filter is_dial evs) <= 1.
Proof.
  intros E.
  destruct (forFirstAvailableNode_events env [n] w) as (r2 & w2 & evs & E2 & H & _ & D & _).
  rewrite E in E2. injection E2 as <- <-. by exists evs.
Qed.

(** A probe dials at most twice, and at most once when it comes back with
    the connection marker. *)
Lemma getLeaderClient_dials nodeName allNodes w r w' :
  getLeaderClient NodeNameFromMember env nodeName allNodes w = Some (r, w') ->
  exists evs,
    history w' = history w ++ evs /\
    length (filter is_dial evs) <= 2 /\
    (forall cl err, r = (cl, Some err) -> Is err = true -> length (filter is_dial evs) <= 1).
Proof.
  intros E. apply getLeaderClient_exit in E.
  inversion E as [e1 w1 H1|tmp w1 msg H1 H2|tmp w1 members H1 H2 H3
                 |tmp w1 members leader H1 H2 H3 H4|tmp w1 members leader r2 w2 H1 H2 H3 H4 H5];
    subst; destruct (forFirstAvailableNode_single_dials _ _ _ _ H1) as (evs1 & Hh1 & D1).
  - exists evs1. split; [done|]. split; [lia|]. intros; lia.
  - exists (evs1 ++ [MembersCall (handle tmp); CloseCall (handle tmp)]).
    split; [simpl; by rewrite Hh1, <- app_assoc|].
    rewrite filter_app, length_app. simpl. split; [lia|]. intros; lia.
  - exists (evs1 ++ [MembersCall (handle tmp); CloseCall (handle tmp)]).
    split; [simpl; by rewrite Hh1, <- app_assoc|].
    rewrite filter_app, length_app. simpl. split; [lia|]. intros; lia.
  - exists (evs1 ++ [MembersCall (handle tmp); CloseCall (handle tmp)]).
    split; [simpl; by rewrite Hh1, <- app_assoc|].
    rewrite filter_app, length_app. simpl. split; [lia|]. intros; lia.
  - destruct (forFirstAvailableNode_single_dials _ _ _ _ H5) as (evs2 & Hh2 & D2).
    exists (evs1 ++ [MembersCall (handle tmp)] ++ evs2 ++ [CloseCall (handle tmp)]).
    split; [simpl; rewrite Hh2; simpl; by rewrite Hh1, <- !app_assoc|].
    rewrite !filter_app, !length_app. simpl. split; [lia|].
    intros cl err -> HIs.
    destruct (forFirstAvailableNode_error_wrapped env [NodeNameFromMember leader] _ _ _ _
                ltac:(done) H5) as [HIs' _].
    congruence.
Qed.

Lemma probes_fail_dials nodes names w es w' :
  probes_fail NodeNameFromMember env nodes names w = Some (es, w') ->
  exists evs,
    history w' = history w ++ evs /\ length (filter is_dial evs) <= length names.
Proof.
  revert w es. induction names as [|name names IH]; intros w es; cbn [probes_fail].
  - intros [= <- <-]. exists []. by rewrite app_nil_r.
  - unfold probe_fails.
    destruct (getLeaderClient NodeNameFromMember env name nodes w)
      as [[[cl [err|]] w1]|] eqn:E1; [|done|done].
    destruct (Is err) eqn:HIs; [|done].
    destruct (probes_fail NodeNameFromMember env nodes names w1) as [[es' w2]|] eqn:E2; [|done].
    intros [= <- <-].
    destruct (getLeaderClient_dials _ _ _ _ _ E1) as (evs1 & H1 & _ & D1).
    destruct (IH _ _ E2) as (evs2 & H2 & D2).
    exists (evs1 ++ evs2). split; [by rewrite H2, H1, app_assoc|].
    rewrite filter_app, length_app. specialize (D1 _ _ eq_refl HIs). simpl. lia.
Qed.

End Bounds.

(** X14: [forLeader] calls [createClient] at most once per candidate and once
    more: one dial for each probe, and a second one to the leader's node in
    the probe that finds it. *)
Theorem forLeader_dial_bound NodeNameFromMember env names w :
  exists r w' evs,
    forLeader NodeNameFromMember env names w = Some (r, w') /\
    history w' = history w ++ evs /\
    length (filter is_dial evs) <= length names + 1.
Proof.
  destruct names as [|n names].
  { eexists _, w, []. split; [reflexivity|]. rewrite app_nil_r. split; [done | simpl; lia]. }
  unfold forLeader. change (Nat.eqb (length (n :: names)) 0) with false. cbv iota.
  destruct (forLeader_loop_runs NodeNameFromMember env (node_set (n :: names)) (n :: names) [] w)
    as (r & w' & E & [(es & Ha & ->)|Hs]).
  - destruct (probes_fail_dials NodeNameFromMember env _ _ _ _ _ Ha) as (evs & H & D).
    eexists _, w', evs. split; [exact E|]. split; [exact H | lia].
  - destruct Hs as (pre & name & post & es & w0 & r1 & Hn & Ha & Hget & _ & ->).
    destruct (probes_fail_dials NodeNameFromMember env _ _ _ _ _ Ha) as (evs1 & H1 & D1).
    destruct (getLeaderClient_dials NodeNameFromMember env _ _ _ _ _ Hget)
      as (evs2 & H2 & D2 & _).
    exists (settle r1), w', (evs1 ++ evs2). split; [exact E|].
    split; [by rewrite H2, H1, app_assoc|].
    rewrite filter_app, length_app, Hn, length_app. simpl. lia.
Qed.

Lemma monitor_app evs1 evs2 open :
  monitor (evs1 ++ evs2) open =
    match monitor evs1 open with
    | Some open' => monitor evs2 open'
    | None => None
    end.
Proof.
  revert open. induction evs1 as [|e evs1 IH]; intros open; [reflexivity|].
  destruct e as [| |ep [h|]|h|h]; cbn [monitor app]; try apply IH;
    destruct (decide (h ∈ open)); try done; apply IH.
Qed.

Lemma monitor_resolver evs open :
  Forall is_resolver_call evs ->
  NoDup (open ++ opened evs) ->
  monitor evs open = Some (open ++ opened evs).
Proof.
  intros F. revert open. induction F as [|e evs He _ IH]; intros open Hnd.
  - simpl. by rewrite app_nil_r.
  - destruct e as [| |ep [h|]|h|h]; try done; cbn [monitor]; try by apply IH.
    change (opened (CreateClientCall ep (Some h) :: evs)) with (h :: opened evs) in *.
    assert (Hh : h ∉ open).
    { apply NoDup_app in Hnd as (_ & Hd & _). intros Hin. apply (Hd h Hin). by left. }
    rewrite decide_False by exact Hh.
    rewrite IH; rewrite <- app_assoc; [reflexivity | exact Hnd].
Qed.

Section Protocol.
Variable NodeNameFromMember : Member -> string.
Variable env : Env.
Local Abbreviation Is := errors_Is_errEtcdNodeConnection.

Lemma forFirstAvailableNode_single_monitor n w r w' open :
  forFirstAvailableNode env [n] w = Some (r, w') ->
  NoDup open ->
  (forall h, h ∈ open -> h < length (history w)) ->
  exists evs,
    history w' = history w ++ evs /\
    monitor evs open = Some (open ++ returned r) /\
    (forall h, h ∈ returned r -> length (history w) <= h < length (history w')) /\
    match r with (Some _, None) | (None, Some _) => True | _ => False end.
Proof.
  intros E Hnd Hold.
  destruct (forFirstAvailableNode_events env [n] w)
    as (r2 & w2 & evs & E2 & H & F & _ & O & B & R).
  rewrite E in E2. injection E2 as <- <-. exists evs. split; [exact H|].
  assert (Hin : forall h, h ∈ returned r -> length (history w) <= h < length (history w')).
  { intros h Hh. rewrite <- O in Hh. apply B in Hh. rewrite H, length_app. lia. }
  split; [|by split]. rewrite <- O. apply monitor_resolver; [exact F|]. rewrite O.
  apply NoDup_app. split; [exact Hnd|]. split; [|apply NoDup_returned].
  intros h Ho Hr. apply Hold in Ho. apply Hin in Hr. lia.
Qed.

(** A probe uses its connections in order and leaves only the one it
    returns open. *)
Lemma getLeaderClient_monitor nodeName allNodes w r w' :
  getLeaderClient NodeNameFromMember env nodeName allNodes w = Some (r, w') ->
  exists evs,
    history w' = history w ++ evs /\ monitor evs [] = Some (returned r).
Proof.
  intros E. apply getLeaderClient_exit in E.
  assert (Hshort : forall tmp w1 e,
             forFirstAvailableNode env [nodeName] w = Some ((Some tmp, None), w1) ->
             exists evs,
               history (logged w1 [MembersCall (handle tmp); CloseCall (handle tmp)]) =
                 history w ++ evs /\
               monitor evs [] = Some (returned (None, Some e))).
  { intros tmp w1 e H1.
    destruct (forFirstAvailableNode_single_monitor _ _ _ _ [] H1) as (evs1 & Hh1 & M1 & _);
      [constructor | by intros h ?%elem_of_nil |].
    exists (evs1 ++ [MembersCall (handle tmp); CloseCall (handle tmp)]).
    split; [simpl; by rewrite Hh1, <- app_assoc|].
    rewrite monitor_app, M1. cbn [monitor returned app].
    rewrite !decide_True by (by left). rewrite filter_cons_False by (by intros []).
    reflexivity. }
  inversion E as [e1 w1 H1|tmp w1 msg H1 H2|tmp w1 members H1 H2 H3
                 |tmp w1 members leader H1 H2 H3 H4|tmp w1 members leader r2 w2 H1 H2 H3 H4 H5];
    subst; try by eapply Hshort.
  - destruct (forFirstAvailableNode_single_monitor _ _ _ _ [] H1) as (evs1 & Hh1 & M1 & _);
      [constructor | by intros h ?%elem_of_nil |].
    by exists evs1.
  - destruct (forFirstAvailableNode_single_monitor _ _ _ _ [] H1) as (evs1 & Hh1 & M1 & B1 & _);
      [constructor | by intros h ?%elem_of_nil |].
    assert (Htmp : handle tmp < length (history w1)) by (apply B1; by left).
    destruct (forFirstAvailableNode_single_monitor _ _ _ _ [handle tmp] H5)
      as (evs2 & Hh2 & M2 & B2 & R2).
    { apply NoDup_singleton. }
    { intros h ->%list_elem_of_singleton. simpl. rewrite length_app. lia. }
    exists (evs1 ++ [MembersCall (handle tmp)] ++ evs2 ++ [CloseCall (handle tmp)]).
    split; [simpl; rewrite Hh2; simpl; by rewrite Hh1, <- !app_assoc|].
    rewrite monitor_app, M1. cbn [returned app monitor].
    rewrite decide_True by (by left). rewrite monitor_app, M2. cbn [monitor app].
    rewrite decide_True by (by left). f_equal.
    rewrite filter_cons_False by (by intros []).
    destruct r as [[cl|] [err|]]; try done. cbn [returned].
    rewrite filter_cons_True; [reflexivity|].
    assert (Hcl := B2 (handle cl) ltac:(by left)). simpl in Hcl. rewrite length_app in Hcl.
    lia.
Qed.

Lemma forLeader_loop_monitor nodes names errs w :
  exists r w' evs,
    forLeader_loop NodeNameFromMember env nodes names errs w = Some (r, w') /\
    history w' = history w ++ evs /\
    monitor evs [] = Some (returned r).
Proof.
  revert errs w. induction names as [|name rest IH]; intros errs w; cbn [forLeader_loop].
  - eexists _, w, []. rewrite app_nil_r. destruct errs; done.
  - destruct (getLeaderClient_spec NodeNameFromMember env name nodes w)
      as (r1 & w1 & evs0 & E1 & _).
    destruct (getLeaderClient_monitor _ _ _ _ _ E1) as (evs1 & H1 & M1).
    rewrite (bind_eq _ _ _ _ _ E1). destruct r1 as [cl [err|]].
    + destruct (Is err).
      * destruct (IH (errs ++ [err]) w1) as (r & w' & evs & E & H & M).
        exists r, w', (evs1 ++ evs). split; [exact E|].
        split; [by rewrite H, H1, app_assoc|].
        rewrite monitor_app, M1. destruct cl; exact M.
      * eexists _, w1, evs1. split; [reflexivity|]. split; [exact H1|].
        rewrite M1. by destruct cl.
    + eexists _, w1, evs1. done.
Qed.

End Protocol.

(** X15: in the log of a [forLeader] call no connection is queried or closed
    unless it is open, none is opened under a handle that is in use, and at
    the end the connection handed to the caller, if any, is the only one
    left open. *)
Theorem forLeader_uses_open_connections NodeNameFromMember env names w :
  exists r w' evs,
    forLeader NodeNameFromMember env names w = Some (r, w') /\
    history w' = history w ++ evs /\
    monitor evs [] = Some (returned r).
Proof.
  unfold forLeader. destruct names as [|n names].
  - eexists _, w, []. by rewrite app_nil_r.
  - change (Nat.eqb (length (n :: names)) 0) with false. cbv iota.
    apply forLeader_loop_monitor.
Qed.

(** The monitor does reject misuse: a query after the close, and a second
    close. *)
Example monitor_rejects_use_after_close :
  monitor [CreateClientCall "pod-b" (Some 0); CloseCall 0; MembersCall 0] [] = None /\
  monitor [CreateClientCall "pod-b" (Some 0); CloseCall 0; CloseCall 0] [] = None.
Proof. split; reflexivity. Qed.

Section MapSteps.
Variable NodeNameFromMember : Member -> string.
Variable env : Env.

Lemma built_at_later w0 pods w1 w2 evs :
  built_at env w0 pods w1 ->
  history w2 = history w1 ++ evs ->
  (forall m, etcdPodMap w1 = Some m -> etcdPodMap w2 = Some m) ->
  built_at env w0 pods w2.
Proof.
  intros (Hn & Hc & Hl & Hp & Hm & evs1 & Hh) Hh2 K.
  repeat (split; [done|]). split; [by apply K|].
  exists (evs1 ++ evs). rewrite Hh2, Hh, <- !app_assoc. reflexivity.
Qed.

Lemma attempts_fail_history names w es w1 :
  attempts_fail env names w = Some (es, w1) -> exists evs, history w1 = history w ++ evs.
Proof.
  revert w es. induction names as [|name names IH]; intros w es; simpl.
  - intros [= _ <-]. exists []. by rewrite app_nil_r.
  - unfold attempt_fails.
    destruct (findEtcdProxyPod_spec env name w) as (r1 & w2 & evs1 & E1 & H1 & _).
    rewrite E1. destruct r1 as [podName [err|]].
    + destruct (attempts_fail env names w2) as [[es' w3]|] eqn:E; [|done].
      intros [= _ <-]. destruct (IH _ _ E) as [evs Hh].
      exists (evs1 ++ evs). by rewrite Hh, H1, app_assoc.
    + destruct (c_createClient_spec env podName w2) as [(msg & _ & E2)|(leader & _ & E2)];
        rewrite E2; [|done].
      destruct (attempts_fail env names _) as [[es' w3]|] eqn:E; [|done].
      intros [= _ <-]. destruct (IH _ _ E) as [evs Hh].
      exists (evs1 ++ [CreateClientCall podName None] ++ evs).
      rewrite Hh. simpl. by rewrite H1, <- !app_assoc.
Qed.

(** The first [findEtcdProxyPod] of the loop that sees a non-empty listing
    builds the map; the candidates before it have failed without a map. *)
Lemma forFirstAvailableNode_loop_built names errs w r w' :
  forFirstAvailableNode_loop env names errs w = Some (r, w') ->
  etcdPodMap w = None ->
  etcdPodMap w' = None \/
  exists pre name post es w0 pods,
    names = pre ++ name :: post /\
    attempts_fail env pre w = Some (es, w0) /\
    built_at env w0 pods w'.
Proof.
  revert errs w. induction names as [|name rest IH]; intros errs w.
  - intros [= _ <-] Hm. by left.
  - intros E Hm.
    assert (Hfail : forall err w1,
               findEtcdProxyPod env name w = Some (("", Some err), w1) ->
               etcdPodMap w1 = None ->
               etcdPodMap w' = None \/
               exists pre name0 post es w0 pods,
                 name :: rest = pre ++ name0 :: post /\
                 attempts_fail env pre w = Some (es, w0) /\
                 built_at env w0 pods w').
    { intros err w1 E1 Hm1. cbn [forFirstAvailableNode_loop] in E.
      rewrite (bind_eq _ _ _ _ _ E1) in E.
      destruct (IH _ _ E Hm1) as [H|(pre & nm & post & es & w0 & pods & -> & Ha & Hb)];
        [by left|right].
      exists (name :: pre), nm, post, (err :: es), w0, pods.
      split; [done|]. split; [|done].
      cbn [attempts_fail]. unfold attempt_fails. rewrite E1, Ha. reflexivity. }
    assert (E1 := findEtcdProxyPod_uncached env name w Hm).
    destruct (NewForConfig env (history w)) as [msg|] eqn:Hcfg;
      [eapply Hfail; [exact E1 | exact Hm]|].
    destruct (PodsList env (history w ++ [NewForConfigCall])) as [msg|pods] eqn:Hl;
      [eapply Hfail; [exact E1 | exact Hm]|].
    destruct pods as [|pod pods]; cbn [length Nat.eqb] in E1;
      [eapply Hfail; [exact E1 | exact Hm]|].
    clear Hfail. right.
    set (w1 := {| etcdPodMap := Some (podmap (pod :: pods));
                  history := history w ++ [NewForConfigCall; PodsListCall] |}) in *.
    assert (E1' := findEtcdProxyPod_cached env (podmap (pod :: pods)) name w1 eq_refl).
    assert (E' : forFirstAvailableNode_loop env (name :: rest) errs w1 = Some (r, w')).
    { rewrite <- E. cbn [forFirstAvailableNode_loop].
      rewrite (bind_eq _ _ _ _ _ E1), (bind_eq _ _ _ _ _ E1'). reflexivity. }
    destruct (forFirstAvailableNode_loop_spec env (name :: rest) errs w1)
      as (r2 & w2 & evs & E2 & H2 & _ & K & _).
    rewrite E' in E2. injection E2 as <- <-.
    exists [], name, rest, [], w, (pod :: pods).
    split; [done|]. split; [done|].
    repeat (split; [done|]). split; [by apply K|].
    exists evs. rewrite H2. subst w1. simpl. by rewrite <- app_assoc.
Qed.

Lemma forFirstAvailableNode_built names w r w' :
  forFirstAvailableNode env names w = Some (r, w') ->
  etcdPodMap w = None ->
  etcdPodMap w' = None \/
  exists pre name post es w0 evs0 pods0 pods,
    names = pre ++ name :: post /\
    NewForConfig env (history w) = None /\
    PodsList env (history w ++ [NewForConfigCall]) = inr pods0 /\
    attempts_fail env pre (after_listing w) = Some (es, w0) /\
    history w0 = history w ++ [NewForConfigCall; PodsListCall] ++ evs0 /\
    built_at env w0 pods w'.
Proof.
  destruct names as [|name names]; [intros [= _ <-]; by left|].
  rewrite forFirstAvailableNode_nonempty by done. intros E Hm.
  destruct (NewForConfig env (history w)) as [msg|] eqn:Hcfg; [injection E as _ <-; by left|].
  destruct (PodsList env (history w ++ [NewForConfigCall])) as [msg|pods0] eqn:Hl;
    [injection E as _ <-; by left|].
  destruct (forFirstAvailableNode_loop_built _ _ _ _ _ E Hm)
    as [H|(pre & nm & post & es & w0 & pods & Hn & Ha & Hb)]; [by left|right].
  destruct (attempts_fail_history _ _ _ _ Ha) as [evs0 Hh].
  exists pre, nm, post, es, w0, evs0, pods0, pods.
  repeat (split; [done|]). split; [|done].
  rewrite Hh. simpl. by rewrite <- app_assoc.
Qed.

(** A probe builds the map, if at all, in its first
    [forFirstAvailableNode], after the listing at the head of it. *)
Lemma getLeaderClient_built nodeName allNodes w r w' :
  getLeaderClient NodeNameFromMember env nodeName allNodes w = Some (r, w') ->
  etcdPodMap w = None ->
  etcdPodMap w' = None \/
  exists pods0 pods,
    NewForConfig env (history w) = None /\
    PodsList env (history w ++ [NewForConfigCall]) = inr pods0 /\
    built_at env (after_listing w) pods w'.
Proof.
  intros E Hm. apply getLeaderClient_exit in E.
  assert (Hfirst : forall r1 w1,
             forFirstAvailableNode env [nodeName] w = Some (r1, w1) ->
             etcdPodMap w1 = None \/
             exists pods0 pods,
               NewForConfig env (history w) = None /\
               PodsList env (history w ++ [NewForConfigCall]) = inr pods0 /\
               built_at env (after_listing w) pods w1).
  { intros r1 w1 E1.
    destruct (forFirstAvailableNode_built _ _ _ _ E1 Hm)
      as [H|(pre & nm & post & es & w0 & evs0 & pods0 & pods & Hn & Hc & Hl & Ha & _ & Hb)];
      [by left|right].
    destruct pre as [|n pre]; [|by destruct pre].
    injection Ha as _ <-. by exists pods0, pods. }
  assert (Hopen : forall tmp w1,
             forFirstAvailableNode env [nodeName] w = Some ((Some tmp, None), w1) ->
             exists pods0 pods,
               NewForConfig env (history w) = None /\
               PodsList env (history w ++ [NewForConfigCall]) = inr pods0 /\
               built_at env (after_listing w) pods w1).
  { intros tmp w1 E1. destruct (Hfirst _ _ E1) as [H|H]; [|exact H].
    destruct (forFirstAvailableNode_spec env [nodeName] w)
      as (r0 & w0 & evs0 & E0 & _ & _ & _ & R0); [done|].
    rewrite E1 in E0. injection E0 as <- <-.
    destruct R0 as (_ & _ & m & _ & _ & _ & _ & Hm1 & _). congruence. }
  inversion E as [e1 w1 H1|tmp w1 msg H1 H2|tmp w1 members H1 H2 H3
                 |tmp w1 members leader H1 H2 H3 H4|tmp w1 members leader r2 w2 H1 H2 H3 H4 H5];
    subst.
  - exact (Hfirst _ _ H1).
  - right. destruct (Hopen _ _ H1) as (pods0 & pods & Hc & Hl & Hb).
    exists pods0, pods. do 2 (split; [done|]).
    by eapply (built_at_later _ _ w1 _ _ Hb).
  - right. destruct (Hopen _ _ H1) as (pods0 & pods & Hc & Hl & Hb).
    exists pods0, pods. do 2 (split; [done|]).
    by eapply (built_at_later _ _ w1 _ _ Hb).
  - right. destruct (Hopen _ _ H1) as (pods0 & pods & Hc & Hl & Hb).
    exists pods0, pods. do 2 (split; [done|]).
    by eapply (built_at_later _ _ w1 _ _ Hb).
  - right. destruct (Hopen _ _ H1) as (pods0 & pods & Hc & Hl & Hb).
    exists pods0, pods. do 2 (split; [done|]).
    destruct (forFirstAvailableNode_spec env [NodeNameFromMember leader]
                (logged w1 [MembersCall (handle tmp)]))
      as (r3 & w3 & evs3 & E3 & Hh3 & _ & K3 & _); [done|].
    rewrite H5 in E3. injection E3 as <- <-.
    eapply (built_at_later _ _ w1 _
              ([MembersCall (handle tmp)] ++ (NewForConfigCall :: evs3) ++
                 [CloseCall (handle tmp)]) Hb).
    + simpl. rewrite Hh3. simpl. by rewrite <- !app_assoc.
    + intros m Hm1. simpl. by apply K3.
Qed.

(** In the loop of [forLeader] the map is built, if at all, by the first
    probe that sees a non-empty listing after the head of its first
    [forFirstAvailableNode]; the probes before it have come back with the
    connection marker and without a map. *)
Lemma forLeader_loop_built nodes names errs w r w' :
  forLeader_loop NodeNameFromMember env nodes names errs w = Some (r, w') ->
  etcdPodMap w = None ->
  etcdPodMap w' = None \/
  exists pre name post es w0 pods0 pods,
    names = pre ++ name :: post /\
    probes_fail NodeNameFromMember env nodes pre w = Some (es, w0) /\
    etcdPodMap w0 = None /\
    NewForConfig env (history w0) = None /\
    PodsList env (history w0 ++ [NewForConfigCall]) = inr pods0 /\
    built_at env (after_listing w0) pods w'.
Proof.
  revert errs w. induction names as [|name rest IH]; intros errs w.
  - intros [= _ <-] Hm. by left.
  - intros E Hm.
    destruct (getLeaderClient NodeNameFromMember env name nodes w)
      as [[r1 w1]|] eqn:E1; [|by cbn [forLeader_loop] in E; unfold bind in E; rewrite E1 in E].
    destruct (forLeader_loop_spec NodeNameFromMember env nodes (name :: rest) errs w)
      as (r0 & w0 & evs0 & E0 & _). rewrite E in E0. injection E0 as <- <-.
    destruct (getLeaderClient_built _ _ _ _ _ E1 Hm) as [Hm1|(pods0 & pods & Hc & Hl & Hb)].
    + cbn [forLeader_loop] in E. rewrite (bind_eq _ _ _ _ _ E1) in E.
      destruct r1 as [cl [err|]]; [|injection E as _ <-; by left].
      destruct (errors_Is_errEtcdNodeConnection err) eqn:HIs; [|injection E as _ <-; by left].
      destruct (IH _ _ E Hm1)
        as [H|(pre & nm & post & es & w0 & pods0 & pods & -> & Ha & Hb)]; [by left|right].
      exists (name :: pre), nm, post, (err :: es), w0, pods0, pods.
      split; [done|]. split; [|done].
      cbn [probes_fail]. unfold probe_fails. rewrite E1, HIs, Ha. reflexivity.
    + right. exists [], name, rest, [], w, pods0, pods.
      do 5 (split; [done|]).
      cbn [forLeader_loop] in E. rewrite (bind_eq _ _ _ _ _ E1) in E.
      assert (Hend : w' = w1 -> built_at env (after_listing w) pods w') by (by intros ->).
      destruct r1 as [cl [err|]]; [|injection E as _ <-; by apply Hend].
      destruct (errors_Is_errEtcdNodeConnection err); [|injection E as _ <-; by apply Hend].
      destruct (forLeader_loop_spec NodeNameFromMember env nodes rest (errs ++ [err]) w1)
        as (r2 & w2 & evs2 & E2 & H2 & K2). rewrite E in E2. injection E2 as <- <-.
      exact (built_at_later _ _ w1 _ _ Hb H2 K2).
Qed.

End MapSteps.

(** X16: whatever happens in a call of [forFirstAvailableNode] or [forLeader],
    the pod map is afterwards what it was before, or it was unset before and
    was built during the call by a [findEtcdProxyPod] of the loop, from the
    non-empty listing that this [findEtcdProxyPod] made itself.  In
    [forFirstAvailableNode] that is the [findEtcdProxyPod] for the candidate
    [name], reached after the listing at the head of the call, which
    returned [pods0], and after the candidates before [name] have failed,
    with the map still unset; in [forLeader] it is the [findEtcdProxyPod] of
    the first [forFirstAvailableNode] of the probe of [name], after the
    listing at its head, and the probes before have come back marked, with
    the map still unset.  So the map is the map of [pods], listed at a later
    position of the log than [pods0]: failed and empty listings are never
    stored, and the listing at the head of [forFirstAvailableNode] never
    is. *)
Theorem pod_map_only_from_listing NodeNameFromMember env names w :
  (forall r w',
      forFirstAvailableNode env names w = Some (r, w') ->
      etcdPodMap w' = etcdPodMap w \/
      exists pre name post es w0 evs0 pods0 pods,
        names = pre ++ name :: post /\
        NewForConfig env (history w) = None /\
        PodsList env (history w ++ [NewForConfigCall]) = inr pods0 /\
        attempts_fail env pre (after_listing w) = Some (es, w0) /\
        history w0 = history w ++ [NewForConfigCall; PodsListCall] ++ evs0 /\
        built_at env w0 pods w') /\
  (forall r w',
      forLeader NodeNameFromMember env names w = Some (r, w') ->
      etcdPodMap w' = etcdPodMap w \/
      exists pre name post es w0 pods0 pods,
        names = pre ++ name :: post /\
        probes_fail NodeNameFromMember env (node_set names) pre w = Some (es, w0) /\
        etcdPodMap w0 = None /\
        NewForConfig env (history w0) = None /\
        PodsList env (history w0 ++ [NewForConfigCall]) = inr pods0 /\
        built_at env (after_listing w0) pods w').
Proof.
  split.
  - intros r w' E. destruct (etcdPodMap w) as [m|] eqn:Hm.
    + left. destruct names as [|n names]; [by injection E as _ <-|].
      destruct (forFirstAvailableNode_spec env (n :: names) w)
        as (r2 & w2 & evs & E2 & _ & _ & K & _); [done|].
      rewrite E in E2. injection E2 as <- <-. by apply K.
    + destruct (forFirstAvailableNode_built env _ _ _ _ E Hm) as [H|H]; [by left|by right].
  - intros r w' E. destruct (etcdPodMap w) as [m|] eqn:Hm.
    + left. unfold forLeader in E. destruct (Nat.eqb (length names) 0);
        [by injection E as _ <-|].
      destruct (forLeader_loop_spec NodeNameFromMember env (node_set names) names [] w)
        as (r2 & w2 & evs & E2 & _ & K). rewrite E in E2. injection E2 as <- <-. by apply K.
    + unfold forLeader in E. destruct (Nat.eqb (length names) 0);
        [left; by injection E as _ <-|].
      destruct (forLeader_loop_built NodeNameFromMember env _ _ _ _ _ _ E Hm) as [H|H];
        [by left|by right].
Qed.

Lemma pod_map_only_from_listing_witness :
  exists w0 pods0 pods,
    PodsList env_late [NewForConfigCall] = inr pods0 /\
    pods0 <> pods /\
    built_at env_late w0 pods
      {| etcdPodMap := Some (podmap pods_bc);
         history := [NewForConfigCall; PodsListCall; NewForConfigCall; PodsListCall;
                     NewForConfigCall; PodsListCall; CreateClientCall "pod-b" (Some 6)] |}.
Proof.
  destruct (pod_map_only_from_listing Member_Name env_late ["A"; "B"] fresh) as [H _].
  edestruct H as [Heq|(pre & name & post & es & w0 & evs0 & pods0 & pods & _ & _ & Hl & _ & _ & Hb)].
  - vm_compute. reflexivity.
  - discriminate Heq.
  - exists w0, pods0, pods. split; [exact Hl|]. split; [|exact Hb].
    destruct Hb as (_ & _ & _ & Hne & _). simpl in Hl. injection Hl as <-.
    intros Heq. apply Hne. by rewrite <- Heq.
Defined.
